(** * Roblox background-check bot: the fetch layer, the resolver, the fan-out
      and the verdict of [index.js], embedded and verified.

    The JavaScript of [index.js] is embedded shallowly:
    - an [async function] is a program ([prog]) over the effects the file
      performs: reads and writes of the module-level [cache], HTTP calls
      through axios, timers, and clock readings;
    - a program is run either alone ([run], every [await] resumes at once) or
      together with others under a schedule ([event_loop], the semantics of
      [Promise.all] on Node's single-threaded event loop);
    - the remote service and the clock are an environment ([Env]) that answers
      from the history of what was done so far, so it can rate-limit the first
      call and accept the second, or answer differently to each URL.

    - a call that is still in flight when [Promise.all] rejects is not
      cancelled; [run_on] gives such calls their further turns, and
      [aftermath] is the interaction with them included.

    What is not modelled: console output, the Discord gateway (the reply the
    handler edits in is the handler's result), the argument checks inside
    the discord.js builders (an embed is the record the builder chain fills
    in), and numbers that are not integers ([retries], [delay], ids and
    timestamps are integers). *)

From stdpp Require Import gmap strings list pretty.
From Stdlib Require Import ZArith Lia Ascii.

Open Scope string_scope.
Open Scope list_scope.
Open Scope Z_scope.

(** ** Values *)

(** The double-quote character, which the messages of [getUserId] contain. *)
Definition dquote : string := String (ascii_of_nat 34) EmptyString.

(** A JavaScript number as this program meets it: an integer, or NaN (what
    [Math.ceil] gives on an invalid date). *)
Inductive JsNum : Type :=
| Num (z : Z)
| NaN.

(** [x >= t] on JavaScript numbers: every comparison with NaN is false. *)
Definition js_ge (x : JsNum) (t : Z) : bool :=
  match x with
  | Num z => bool_decide (t ≤ z)
  | NaN => false
  end.

(** [`${x}`]: the decimal rendering of a number inside a template literal. *)
Definition js_show (x : JsNum) : string :=
  match x with
  | Num z => pretty z
  | NaN => "NaN"
  end.

(** The payload [res.data] of a response, with the properties [index.js]
    reads.  A property that is absent is [None].
    - [name]: the display name of the user-details endpoint;
    - [created]: the creation date of the user-details endpoint, as the
      millisecond timestamp [new Date(created)] parses it to ([None] also when
      the date does not parse);
    - [data]: the array of the list endpoints (friends, group roles, the
      username lookup); each entry is represented by its [id]. *)
Record Body : Type := mkBody {
  name : option string;
  created : option Z;
  data : option (list Z)
}.

(** An axios response: the HTTP status and the payload. *)
Record Response : Type := mkResponse {
  status : Z;
  body : Body
}.

(** A thrown JavaScript error.  [response_status] is [err.response.status]
    when axios attached a response to the error, [None] for a plain
    [Error] or a network failure. *)
Record JsError : Type := mkJsError {
  message : string;
  response_status : option Z
}.

(** [new Error(msg)] *)
Definition Error (msg : string) : JsError :=
  {| message := msg; response_status := None |}.

(** [err.response && err.response.status === 429] *)
Definition is_rate_limited (err : JsError) : bool :=
  match response_status err with
  | Some s => bool_decide (s = 429)
  | None => false
  end.

#[global] Instance Body_eq_dec : EqDecision Body.
Proof. solve_decision. Defined.
#[global] Instance Response_eq_dec : EqDecision Response.
Proof. solve_decision. Defined.
#[global] Instance JsError_eq_dec : EqDecision JsError.
Proof. solve_decision. Defined.

(** ** Effects *)

(** An outgoing HTTP request. *)
Inductive Request : Type :=
| Get (url : string)
| Post (url : string) (usernames : list string).

(** How an axios promise settles. *)
Inductive Reply : Type :=
| Fulfilled (res : Response)
| Rejected (err : JsError).

(** What the program did, oldest first. *)
Inductive Event : Type :=
| Called (req : Request)
| Slept (ms : Z)
| ClockRead (t : Z).

#[global] Instance Request_eq_dec : EqDecision Request.
Proof. solve_decision. Defined.
#[global] Instance Event_eq_dec : EqDecision Event.
Proof. solve_decision. Defined.

(** The world outside the program: the remote service answers a request, and
    the clock is read, from the history at that moment. *)
Record Env : Type := mkEnv {
  upstream : list Event → Request → Reply;
  clock : list Event → Z
}.

(** The state the program runs in: the module-level [const cache = new Map()]
    and the history of effects. *)
Record World : Type := mkWorld {
  cache : gmap string Response;
  history : list Event
}.

Definition record (ev : Event) (w : World) : World :=
  {| cache := cache w; history := history w ++ [ev] |}.

Definition cache_set (url : string) (res : Response) (w : World) : World :=
  {| cache := <[url := res]> (cache w); history := history w |}.

(** How a call ends: [return v] or [throw err]. *)
Inductive completion (A : Type) : Type :=
| Normal (v : A)
| Abrupt (err : JsError).
Arguments Normal {A} v.
Arguments Abrupt {A} err.

(** The body of an [async function].  [CacheLookup] is [cache.has(url)]
    followed by [cache.get(url)] (both synchronous, nothing runs between
    them); [Http] and [Sleep] are the two things the file awaits
    ([axios.get]/[axios.post], and [new Promise(r => setTimeout(r, ms))]);
    [Now] is [new Date()].  [OutOfFuel] ends an unrolling of a recursion that
    JavaScript would continue. *)
Inductive prog (A : Type) : Type :=
| Ret (v : A)
| Throw (err : JsError)
| OutOfFuel
| CacheLookup (url : string) (k : option Response → prog A)
| CacheSet (url : string) (res : Response) (k : prog A)
| Http (req : Request) (k : Reply → prog A)
| Sleep (ms : Z) (k : prog A)
| Now (k : Z → prog A).
Arguments Ret {A} v.
Arguments Throw {A} err.
Arguments OutOfFuel {A}.
Arguments CacheLookup {A} url k.
Arguments CacheSet {A} url res k.
Arguments Http {A} req k.
Arguments Sleep {A} ms k.
Arguments Now {A} k.

(** Sequencing: [const x = await p; k x]. *)
Fixpoint bind {A B : Type} (p : prog A) (f : A → prog B) : prog B :=
  match p with
  | Ret v => f v
  | Throw err => Throw err
  | OutOfFuel => OutOfFuel
  | CacheLookup url k => CacheLookup url (λ hit, bind (k hit) f)
  | CacheSet url res k => CacheSet url res (bind k f)
  | Http req k => Http req (λ reply, bind (k reply) f)
  | Sleep ms k => Sleep ms (bind k f)
  | Now k => Now (λ t, bind (k t) f)
  end.

(** [try { p } catch (err) { h err }] *)
Fixpoint try_catch {A : Type} (p : prog A) (h : JsError → prog A) : prog A :=
  match p with
  | Ret v => Ret v
  | Throw err => h err
  | OutOfFuel => OutOfFuel
  | CacheLookup url k => CacheLookup url (λ hit, try_catch (k hit) h)
  | CacheSet url res k => CacheSet url res (try_catch k h)
  | Http req k => Http req (λ reply, try_catch (k reply) h)
  | Sleep ms k => Sleep ms (try_catch k h)
  | Now k => Now (λ t, try_catch (k t) h)
  end.

Notation "'let!' x ':=' p 'in' k" := (bind p (λ x, k))
  (at level 10, x pattern, p at level 100, k at level 200).

(** [await axios.get(url)]: the response, or the rejection thrown. *)
Definition axios_get (url : string) : prog Response :=
  Http (Get url) (λ reply,
    match reply with
    | Fulfilled res => Ret res
    | Rejected err => Throw err
    end).

(** [await axios.post(url, { usernames })] *)
Definition axios_post (url : string) (usernames : list string) : prog Response :=
  Http (Post url usernames) (λ reply,
    match reply with
    | Fulfilled res => Ret res
    | Rejected err => Throw err
    end).

(** ** The fetch client: [safeAxiosGet] *)

(** The error thrown after the loop:
    [new Error(`Failed after ${retries} retries for URL: ${url}`)]. *)
Definition RetriesExhaustedError (retries : Z) (url : string) : JsError :=
  Error ("Failed after " +:+ pretty retries +:+ " retries for URL: " +:+ url).

(** One turn of the [for] loop: the [try] block and its [catch].
    [Some res] is [return res]; [None] is falling out of the [catch] into the
    next turn. *)
Definition safeAxiosGet_attempt (url : string) (delay : Z) : prog (option Response) :=
  try_catch
    (CacheLookup url (λ hit,
       match hit with
       | Some cached => Ret (Some cached)
       | None =>
           let! response := axios_get url in
           CacheSet url response (Ret (Some response))
       end))
    (λ err,
       if is_rate_limited err
       then Sleep delay (Ret None)
       else Throw err).

(** [for (let i = 0; i < retries; i++) { ... }] with [n] turns left, then the
    [throw] after the loop. *)
Fixpoint safeAxiosGet_loop (url : string) (retries delay : Z) (n : nat) : prog Response :=
  match n with
  | O => Throw (RetriesExhaustedError retries url)
  | S n' =>
      let! turn := safeAxiosGet_attempt url delay in
      match turn with
      | Some res => Ret res
      | None => safeAxiosGet_loop url retries delay n'
      end
  end.

(** [async function safeAxiosGet(url, retries = 3, delay = 3000)] *)
Definition safeAxiosGet (url : string) (retries delay : Z) : prog Response :=
  safeAxiosGet_loop url retries delay (Z.to_nat retries).

Definition default_retries : Z := 3.
Definition default_delay : Z := 3000.

(** [safeAxiosGet(url)], as every caller in the file calls it. *)
Definition safeAxiosGet_default (url : string) : prog Response :=
  safeAxiosGet url default_retries default_delay.

(** ** Running one program alone *)

Section Run.
Variable env : Env.

(** [run p w]: the completion of [p] started in [w] when nothing else runs,
    so every awaited promise resumes [p] as soon as it settles.  A request
    is answered from the history that already holds the request. *)
Fixpoint run {A : Type} (p : prog A) (w : World) : option (completion A * World) :=
  match p with
  | Ret v => Some (Normal v, w)
  | Throw err => Some (Abrupt err, w)
  | OutOfFuel => None
  | CacheLookup url k => run (k (cache w !! url)) w
  | CacheSet url res k => run k (cache_set url res w)
  | Http req k =>
      let w' := record (Called req) w in
      run (k (upstream env (history w') req)) w'
  | Sleep ms k => run k (record (Slept ms) w)
  | Now k =>
      let t := clock env (history w) in
      run (k t) (record (ClockRead t) w)
  end.

End Run.

(** ** The identity resolver: [getUserId] *)

Definition usernames_url : string := "https://users.roblox.com/v1/usernames/users".

(** [new Error(`User "${username}" not found`)] *)
Definition NotFoundError (username : string) : JsError :=
  Error ("User " +:+ dquote +:+ username +:+ dquote +:+ " not found").

(** [new Error(`Failed to get user ID for "${username}": ${err.message}`)] *)
Definition ResolutionError (username : string) (cause : JsError) : JsError :=
  Error ("Failed to get user ID for " +:+ dquote +:+ username +:+ dquote
         +:+ ": " +:+ message cause).

(** [async function getUserId(username)].  The function calls itself from its
    [catch] block; [fuel] bounds the depth of that recursion ([fuel] calls,
    the outermost included), and [OutOfFuel] stands for the call JavaScript
    would make next. *)
Fixpoint getUserId (fuel : nat) (username : string) : prog Z :=
  match fuel with
  | O => OutOfFuel
  | S fuel' =>
      try_catch
        (let! res := axios_post usernames_url [username] in
         match data (body res) with
         | None | Some [] => Throw (NotFoundError username)
         | Some (id :: _) => Ret id
         end)
        (λ err,
           if is_rate_limited err
           then Sleep 3000 (getUserId fuel' username)
           else Throw (ResolutionError username err))
  end.

(** ** The three metric fetches *)

Definition user_url (userId : Z) : string :=
  "https://users.roblox.com/v1/users/" +:+ pretty userId.
Definition friends_url (userId : Z) : string :=
  "https://friends.roblox.com/v1/users/" +:+ pretty userId +:+ "/friends".
Definition groups_url (userId : Z) : string :=
  "https://groups.roblox.com/v1/users/" +:+ pretty userId +:+ "/groups/roles".

(** The [TypeError] of reading [.length] of [undefined]. *)
Definition LengthOfUndefined : JsError :=
  Error "Cannot read properties of undefined (reading 'length')".

(** [res.data.data.length] *)
Definition data_length (res : Response) : prog Z :=
  match data (body res) with
  | Some entries => Ret (Z.of_nat (length entries))
  | None => Throw LengthOfUndefined
  end.

(** [async function getUserDetails(userId)] *)
Definition getUserDetails (userId : Z) : prog Body :=
  let! res := safeAxiosGet_default (user_url userId) in
  Ret (body res).

(** [async function getFriendsCount(userId)] *)
Definition getFriendsCount (userId : Z) : prog Z :=
  let! res := safeAxiosGet_default (friends_url userId) in
  data_length res.

(** [async function getGroupsCount(userId)] *)
Definition getGroupsCount (userId : Z) : prog Z :=
  let! res := safeAxiosGet_default (groups_url userId) in
  data_length res.

(** ** Account age *)

(** [1000 * 60 * 60 * 24] *)
Definition ms_per_day : Z := 1000 * 60 * 60 * 24.

(** [Math.ceil(a / b)] for integers [a] and [b > 0]. *)
Definition ceil_div (a b : Z) : Z := - ((- a) / b).

(** [Math.ceil(Math.abs(now - created) / (1000 * 60 * 60 * 24))] on two
    millisecond timestamps.  The quotient is taken exactly; the double
    JavaScript computes has the same ceiling as long as the difference is
    below 2^53 ms (some 285 000 years), which holds for any two dates after
    1970. *)
Definition diffDays (now created : Z) : Z :=
  ceil_div (Z.abs (now - created)) ms_per_day.

(** The value of [diffDays] for [created = new Date(createdDate)]: an absent
    or unparsable [createdDate] is an invalid date, whose arithmetic is NaN. *)
Definition age_at (now : Z) (createdDate : option Z) : JsNum :=
  match createdDate with
  | Some createdAt => Num (diffDays now createdAt)
  | None => NaN
  end.

(** [function calculateAccountAge(createdDate)]: [new Date()] reads the
    clock. *)
Definition calculateAccountAge (createdDate : option Z) : prog JsNum :=
  Now (λ now, Ret (age_at now createdDate)).

(** ** The verdict: [createResultsEmbed] *)

Definition minAge : Z := 90.
Definition minFriends : Z := 20.
Definition minGroups : Z := 30.

(** The four [const]s the function computes before it builds the embed. *)
Record Verdicts : Type := mkVerdicts {
  ageMet : bool;
  friendsMet : bool;
  groupsMet : bool;
  passed : bool
}.

Definition verdicts (accountAge friendsCount groupsCount : JsNum) : Verdicts :=
  let ageMet := js_ge accountAge minAge in
  let friendsMet := js_ge friendsCount minFriends in
  let groupsMet := js_ge groupsCount minGroups in
  {| ageMet := ageMet; friendsMet := friendsMet; groupsMet := groupsMet;
     passed := ageMet && friendsMet && groupsMet |}.

Record Field : Type := mkField {
  field_name : string;
  field_value : string;
  inline : bool
}.

Record Embed : Type := mkEmbed {
  title : string;
  color : Z;
  fields : list Field;
  footer : string;
  timestamp : Z
}.

Definition mark (met : bool) : string := if met then "✅" else "❌".

(** [0x00FF00] and [0xFF0000] *)
Definition green : Z := 65280.
Definition red : Z := 16711680.

(** The builder chain of [createResultsEmbed], given the verdicts and the
    clock reading of [setTimestamp()]. *)
Definition build_embed (username : string) (accountAge friendsCount groupsCount : JsNum)
    (v : Verdicts) (now : Z) : Embed :=
  {| title := "Background Check - " +:+ username;
     color := if passed v then green else red;
     fields :=
       [ {| field_name := "Account Age";
            field_value := mark (ageMet v) +:+ " " +:+ js_show accountAge
                           +:+ " days (min " +:+ pretty minAge +:+ ")";
            inline := false |};
         {| field_name := "Friends";
            field_value := mark (friendsMet v) +:+ " " +:+ js_show friendsCount
                           +:+ " friends (min " +:+ pretty minFriends +:+ ")";
            inline := false |};
         {| field_name := "Groups";
            field_value := mark (groupsMet v) +:+ " " +:+ js_show groupsCount
                           +:+ " groups (min " +:+ pretty minGroups +:+ ")";
            inline := false |};
         {| field_name := "Overall Status";
            field_value := if passed v then "🟢 PASSED" else "🔴 FAILED";
            inline := false |} ];
     footer := "Background Check System";
     timestamp := now |}.

(** [function createResultsEmbed(username, accountAge, friendsCount, groupsCount)]

    The function's own code has no [throw] and no check of its arguments.
    The checks that the discord.js builders run on what they are given (the
    length of a title or of a field text) are library code outside this
    repository and are not modelled: the definition describes the embed that
    the chain fills in, so [Normal e] below says that the embed filled in
    is [e], not that the library accepted it. *)
Definition createResultsEmbed (username : string)
    (accountAge friendsCount groupsCount : JsNum) : prog Embed :=
  let v := verdicts accountAge friendsCount groupsCount in
  Now (λ now, Ret (build_embed username accountAge friendsCount groupsCount v now)).

(** ** Running programs together: [Promise.all] *)

(** Where a started [async] call stands: settled, suspended at an awaited
    request or timer, or out of fuel. *)
Inductive taskstate (A : Type) : Type :=
| Settled (c : completion A)
| AwaitingReply (req : Request) (k : Reply → prog A)
| AwaitingTimer (k : prog A)
| Stalled.
Arguments Settled {A} c.
Arguments AwaitingReply {A} req k.
Arguments AwaitingTimer {A} k.
Arguments Stalled {A}.

(** The three promises handed to [Promise.all], in array order. *)
Record FanOut (A B C : Type) : Type := mkFanOut {
  first : taskstate A;
  second : taskstate B;
  third : taskstate C
}.
Arguments mkFanOut {A B C} first second third.
Arguments first {A B C} f.
Arguments second {A B C} f.
Arguments third {A B C} f.

(** Which of the three the event loop resumes next. *)
Inductive Task : Type := Task1 | Task2 | Task3.

#[global] Instance Task_eq_dec : EqDecision Task.
Proof. solve_decision. Defined.

(** The reason [Promise.all] rejects with: that of the first rejected
    promise.  The loop below stops at the first rejection, so more than one
    can be rejected only when they were so before the loop started, and then
    the reactions run in array order. *)
Definition rejection {A B C : Type} (st : FanOut A B C) : option JsError :=
  match first st, second st, third st with
  | Settled (Abrupt err), _, _ => Some err
  | _, Settled (Abrupt err), _ => Some err
  | _, _, Settled (Abrupt err) => Some err
  | _, _, _ => None
  end.

(** The array [Promise.all] fulfils with: all three values. *)
Definition fulfilment {A B C : Type} (st : FanOut A B C) : option (A * B * C) :=
  match first st, second st, third st with
  | Settled (Normal a), Settled (Normal b), Settled (Normal c) => Some (a, b, c)
  | _, _, _ => None
  end.

(** How [await Promise.all([...])] completes, once it does. *)
Definition promise_settled {A B C : Type} (st : FanOut A B C)
    : option (completion (A * B * C)) :=
  match rejection st with
  | Some err => Some (Abrupt err)
  | None =>
      match fulfilment st with
      | Some values => Some (Normal values)
      | None => None
      end
  end.

(** What the handler needs of the interaction. *)
Record Interaction : Type := mkInteraction {
  isChatInputCommand : bool;
  commandName : string;
  username_option : string
}.

(** The argument of [interaction.editReply]. *)
Inductive BotReply : Type :=
| ReplyEmbeds (embeds : list Embed)
| ReplyContent (content : string).

Section EventLoop.
Variable env : Env.

(** Run the synchronous part of a program, up to its next [await]. *)
Fixpoint advance {A : Type} (p : prog A) (w : World) : taskstate A * World :=
  match p with
  | Ret v => (Settled (Normal v), w)
  | Throw err => (Settled (Abrupt err), w)
  | OutOfFuel => (Stalled, w)
  | CacheLookup url k => advance (k (cache w !! url)) w
  | CacheSet url res k => advance k (cache_set url res w)
  | Http req k => (AwaitingReply req k, record (Called req) w)
  | Sleep ms k => (AwaitingTimer k, record (Slept ms) w)
  | Now k =>
      let t := clock env (history w) in
      advance (k t) (record (ClockRead t) w)
  end.

(** The awaited promise settles and the program continues to its next
    [await].  The reply is the one the service gives at that moment. *)
Definition resume {A : Type} (s : taskstate A) (w : World) : taskstate A * World :=
  match s with
  | AwaitingReply req k => advance (k (upstream env (history w) req)) w
  | AwaitingTimer k => advance k w
  | Settled _ | Stalled => (s, w)
  end.

Definition resume_task {A B C : Type} (t : Task) (st : FanOut A B C) (w : World)
    : FanOut A B C * World :=
  match t with
  | Task1 => let '(s, w') := resume (first st) w in (mkFanOut s (second st) (third st), w')
  | Task2 => let '(s, w') := resume (second st) w in (mkFanOut (first st) s (third st), w')
  | Task3 => let '(s, w') := resume (third st) w in (mkFanOut (first st) (second st) s, w')
  end.

(** The three calls of the array literal, made in order: each runs to its
    first [await] before the next one starts. *)
Definition start_all {A B C : Type} (pa : prog A) (pb : prog B) (pc : prog C)
    (w : World) : FanOut A B C * World :=
  let '(sa, w1) := advance pa w in
  let '(sb, w2) := advance pb w1 in
  let '(sc, w3) := advance pc w2 in
  (mkFanOut sa sb sc, w3).

(** The event loop until [Promise.all] settles: [sched] lists the task each
    turn resumes.  [None]: the schedule ended with the promise pending. *)
Fixpoint event_loop {A B C : Type} (sched : list Task) (st : FanOut A B C)
    (w : World) : option (FanOut A B C * World) :=
  match promise_settled st with
  | Some _ => Some (st, w)
  | None =>
      match sched with
      | [] => None
      | t :: sched' =>
          let '(st', w') := resume_task t st w in
          event_loop sched' st' w'
      end
  end.

(** [await Promise.all([pa, pb, pc])] under the schedule [sched]: the state
    of the three promises when [Promise.all] settles, and the world then.
    Promises still pending at a rejection are left as they are; what they
    do afterwards is [run_on], below. *)
Definition promise_all {A B C : Type} (pa : prog A) (pb : prog B) (pc : prog C)
    (sched : list Task) (w : World) : option (FanOut A B C * World) :=
  let '(st, w') := start_all pa pb pc w in
  event_loop sched st w'.

(** ** The command handler *)

(** [userDetails.name] inside a template literal. *)
Definition js_string (s : option string) : string :=
  match s with
  | Some text => text
  | None => "undefined"
  end.

(** The three promises of the handler's fan-out. *)
Definition fan_out (userId : Z) (sched : list Task) (w : World)
    : option (FanOut Body Z Z * World) :=
  promise_all (getUserDetails userId) (getFriendsCount userId)
              (getGroupsCount userId) sched w.

(** The two lines after the fan-out: the age and the embed. *)
Definition present (userDetails : Body) (friendsCount groupsCount : Z) : prog Embed :=
  let! accountAge := calculateAccountAge (created userDetails) in
  createResultsEmbed (js_string (name userDetails)) accountAge
                     (Num friendsCount) (Num groupsCount).

(** The [try] block of the handler: the embed it builds, or what it throws. *)
Definition background_check (fuel : nat) (sched : list Task) (username : string)
    (w : World) : option (completion Embed * World) :=
  match run env (getUserId fuel username) w with
  | None => None
  | Some (Abrupt err, w1) => Some (Abrupt err, w1)
  | Some (Normal userId, w1) =>
      match fan_out userId sched w1 with
      | None => None
      | Some (st, w2) =>
          match promise_settled st with
          | None => None
          | Some (Abrupt err) => Some (Abrupt err, w2)
          | Some (Normal (userDetails, friendsCount, groupsCount)) =>
              run env (present userDetails friendsCount groupsCount) w2
          end
      end
  end.

(** [client.on('interactionCreate', async interaction => { ... })]: the
    reply edited in, or [None] for an interaction the handler ignores. *)
Definition interactionCreate (fuel : nat) (sched : list Task) (i : Interaction)
    (w : World) : option (option BotReply * World) :=
  if negb (isChatInputCommand i) then Some (None, w)
  else if negb (bool_decide (commandName i = "bgc")) then Some (None, w)
  else
    match background_check fuel sched (username_option i) w with
    | None => None
    | Some (Normal embed, w') => Some (Some (ReplyEmbeds [embed]), w')
    | Some (Abrupt err, w') =>
        Some (Some (ReplyContent ("Error: " +:+ message err)), w')
    end.

(** ** After the reply *)

(** Nothing in the file cancels a call.  When [Promise.all] rejects, the
    calls still in flight go on after the handler has replied: each one
    retries and stores its response as if it were still awaited.
    [run_on later st w] gives the calls of [st] the turns [later], whether
    [Promise.all] has settled or not. *)
Fixpoint run_on {A B C : Type} (later : list Task) (st : FanOut A B C) (w : World)
    : FanOut A B C * World :=
  match later with
  | [] => (st, w)
  | t :: later' => let '(st', w') := resume_task t st w in run_on later' st' w'
  end.

(** The three calls as the handler leaves them when it replies; [None] when
    it never started them. *)
Definition left_running (fuel : nat) (sched : list Task) (username : string)
    (w : World) : option (FanOut Body Z Z) :=
  match run env (getUserId fuel username) w with
  | Some (Normal userId, w1) =>
      match fan_out userId sched w1 with
      | Some (st, _) => Some st
      | None => None
      end
  | _ => None
  end.

(** The interaction to its very end: the reply of the handler, and the world
    once the calls it left running have been given the turns [later]. *)
Definition aftermath (fuel : nat) (sched later : list Task) (i : Interaction)
    (w : World) : option (option BotReply * World) :=
  match interactionCreate fuel sched i w with
  | None => None
  | Some (None, w') => Some (None, w')
  | Some (Some reply, w') =>
      match left_running fuel sched (username_option i) w with
      | Some st => Some (Some reply, (run_on later st w').2)
      | None => Some (Some reply, w')
      end
  end.

End EventLoop.

(** ** Environments to run the code against *)

(** How many times [req] was issued in the history [h]. *)
Definition calls_of (req : Request) (h : list Event) : nat :=
  length (filter (λ ev, ev = Called req) h).

(** A service that answers the n-th call of a request with the n-th reply of
    [script req], and with [otherwise] once the script is used up; the clock
    stands at [now]. *)
Definition scripted (script : Request → list Reply) (otherwise : Reply) (now : Z) : Env :=
  {| upstream := λ h req, default otherwise (script req !! (calls_of req h - 1)%nat);
     clock := λ _, now |}.

(** The rejection axios raises on HTTP 429. *)
Definition TooManyRequests : JsError :=
  {| message := "Request failed with status code 429"; response_status := Some 429 |}.

(** The rejection axios raises on HTTP 500. *)
Definition ServerError : JsError :=
  {| message := "Request failed with status code 500"; response_status := Some 500 |}.

(** A 200 response of a list endpoint. *)
Definition ok_list (ids : list Z) : Response :=
  {| status := 200; body := {| name := None; created := None; data := Some ids |} |}.

(** A 200 response of the user-details endpoint. *)
Definition ok_user (display : string) (createdAt : Z) : Response :=
  {| status := 200;
     body := {| name := Some display; created := Some createdAt; data := None |} |}.

(** A fresh process: nothing cached, nothing done. *)
Definition fresh : World := {| cache := ∅; history := [] |}.

(** A service that rate-limits everything. *)
Definition always_429 : Env := scripted (λ _, []) (Rejected TooManyRequests) 0.

(** A service that rate-limits the first two lookups of a name and resolves
    the third to the id 42. *)
Definition limited_twice : Env :=
  scripted (λ req,
              match req with
              | Post _ _ => [Rejected TooManyRequests; Rejected TooManyRequests;
                             Fulfilled (ok_list [42])]
              | Get _ => []
              end)
           (Rejected ServerError) 0.

(** A service whose lookup finds nobody. *)
Definition nobody : Env := scripted (λ _, []) (Fulfilled (ok_list [])) 0.

(** A service that resolves bob to 42, rate-limits the first request for
    the details of 42, then serves them (created at time 0), and serves 25
    friends and 35 groups; the clock stands at day 95. *)
Definition sample_service : Env :=
  scripted (λ req,
              match req with
              | Post _ _ => [Fulfilled (ok_list [42])]
              | Get url =>
                  if bool_decide (url = user_url 42)
                  then [Rejected TooManyRequests; Fulfilled (ok_user "Bob" 0)]
                  else if bool_decide (url = friends_url 42)
                  then [Fulfilled (ok_list (seqZ 1 25))]
                  else [Fulfilled (ok_list (seqZ 1 35))]
              end)
           (Rejected ServerError) (95 * ms_per_day).

(** The [/bgc bob] interaction. *)
Definition bgc_bob : Interaction :=
  {| isChatInputCommand := true; commandName := "bgc"; username_option := "bob" |}.

(** ** The vocabulary of the statements *)

(** What [n] rate-limited turns of the loop leave in the history. *)
Fixpoint backoff_trace (url : string) (delay : Z) (n : nat) : list Event :=
  match n with
  | O => []
  | S n' => Called (Get url) :: Slept delay :: backoff_trace url delay n'
  end.

(** The request of [getUserId]. *)
Definition lookup_request (username : string) : Request :=
  Post usernames_url [username].

(** What [n] rate-limited lookups leave in the history. *)
Fixpoint lookup_trace (username : string) (n : nat) : list Event :=
  match n with
  | O => []
  | S n' => Called (lookup_request username) :: Slept 3000 :: lookup_trace username n'
  end.

(** [awaits_within n p]: along every path, whatever the replies, [p] ends
    after at most [n] awaits (and never runs out of fuel). *)
Fixpoint awaits_within {A : Type} (n : nat) (p : prog A) : Prop :=
  match p with
  | Ret _ | Throw _ => True
  | OutOfFuel => False
  | CacheLookup _ k => ∀ hit, awaits_within n (k hit)
  | CacheSet _ _ k => awaits_within n k
  | Http _ k =>
      match n with
      | O => False
      | S n' => ∀ reply, awaits_within n' (k reply)
      end
  | Sleep _ k =>
      match n with
      | O => False
      | S n' => awaits_within n' k
      end
  | Now k => ∀ t, awaits_within n (k t)
  end.

(** The same for a started call: it settles within [n] more turns. *)
Definition settles_within {A : Type} (n : nat) (s : taskstate A) : Prop :=
  match s with
  | Settled _ => True
  | AwaitingReply _ k =>
      match n with
      | O => False
      | S n' => ∀ reply, awaits_within n' (k reply)
      end
  | AwaitingTimer k =>
      match n with
      | O => False
      | S n' => awaits_within n' k
      end
  | Stalled => False
  end.

(** The number of turns a schedule gives to a task. *)
Definition turns_of (t : Task) (sched : list Task) : nat :=
  length (filter (λ x, x = t) sched).

(** Three tasks taking turns, [n] turns each. *)
Fixpoint round_robin (n : nat) : list Task :=
  match n with
  | O => []
  | S n' => Task1 :: Task2 :: Task3 :: round_robin n'
  end.

(** [n] turns of the event loop given to one started call. *)
Fixpoint turns (env : Env) {A : Type} (n : nat) (s : taskstate A) (w : World)
    : taskstate A * World :=
  match n with
  | O => (s, w)
  | S n' => let '(s', w') := resume env s w in turns env n' s' w'
  end.

(** A started call that can only end by throwing: whatever the moment it is
    resumed at, it settles with an error. *)
Definition doomed (env : Env) {A : Type} (s : taskstate A) : Prop :=
  ∀ w, ∃ err, (resume env s w).1 = Settled (Abrupt err).

(** ** More environments, and what they leave behind *)

(** A service that rate-limits the first request of every URL and serves two
    entries at the second. *)
Definition limited_once : Env :=
  scripted (λ _, [Rejected TooManyRequests; Fulfilled (ok_list [7; 8])])
           (Rejected ServerError) 0.

(** A service whose lookup fails with a server error. *)
Definition lookup_down : Env := scripted (λ _, []) (Rejected ServerError) 0.

(** A service that answers every request with a payload without [data]. *)
Definition malformed_service : Env :=
  scripted (λ _, []) (Fulfilled (ok_user "Bob" 0)) 0.

(** A service that is down: every request fails with HTTP 500, except that
    the lookup still resolves bob to 42. *)
Definition only_lookup_works : Env :=
  scripted (λ req, match req with
                   | Post _ _ => [Fulfilled (ok_list [42]); Fulfilled (ok_list [42])]
                   | Get _ => []
                   end)
           (Rejected ServerError) (200 * ms_per_day).

(** A service that always serves the three metrics of the user 42. *)
Definition steady_service : Env :=
  {| upstream := λ _ req,
       match req with
       | Post _ _ => Fulfilled (ok_list [42])
       | Get url =>
           if bool_decide (url = user_url 42) then Fulfilled (ok_user "Bob" 0)
           else if bool_decide (url = friends_url 42) then Fulfilled (ok_list [1; 2])
           else Fulfilled (ok_list [3])
       end;
     clock := λ _, 0 |}.

(** What the [/bgc bob] interaction leaves behind against the sample service,
    and its reply. *)
Definition bob_world : World :=
  Eval vm_compute in
    match interactionCreate sample_service 1 (round_robin 6) bgc_bob fresh with
    | Some (_, w) => w
    | None => fresh
    end.

Definition bob_reply : option BotReply :=
  Eval vm_compute in
    match interactionCreate sample_service 1 (round_robin 6) bgc_bob fresh with
    | Some (r, _) => r
    | None => None
    end.

(** The state of the three promises, and the world, when the fan-out for bob
    settles against the sample service. *)
Definition bob_fan : FanOut Body Z Z :=
  Eval vm_compute in
    match fan_out sample_service 42 (round_robin 6)
                  {| cache := ∅; history := [Called (lookup_request "bob")] |} with
    | Some (st, _) => st
    | None => mkFanOut Stalled Stalled Stalled
    end.

Definition bob_fan_world : World :=
  Eval vm_compute in
    match fan_out sample_service 42 (round_robin 6)
                  {| cache := ∅; history := [Called (lookup_request "bob")] |} with
    | Some (_, w) => w
    | None => fresh
    end.

(** The embed of the reply to [/bgc bob]. *)
Definition bob_embed : Embed :=
  Eval vm_compute in
    match bob_reply with
    | Some (ReplyEmbeds [embed]) => embed
    | _ => build_embed "none" NaN NaN NaN (verdicts NaN NaN NaN) 0
    end.

(** A service that resolves bob to 42 and fails every request for the
    details of 42 with HTTP 500, while it rate-limits the first request for
    the friends and for the groups of 42 and serves two entries at the
    second. *)
Definition details_down : Env :=
  scripted (λ req,
              match req with
              | Post _ _ => [Fulfilled (ok_list [42])]
              | Get url =>
                  if bool_decide (url = user_url 42) then []
                  else [Rejected TooManyRequests; Fulfilled (ok_list [7; 8])]
              end)
           (Rejected ServerError) 0.

(** A process that has already cached the details of the user 7. *)
Definition ann_cached : World :=
  {| cache := {[ user_url 7 := ok_user "Ann" 0 ]};
     history := [Called (Get (user_url 7))] |}.

(** [/bgc bob] against [details_down], started with the details of 7 cached:
    the reply, the world at the reply, and the world once the two calls left
    in flight have had their turns. *)
Definition orphans_reply : option BotReply :=
  Eval vm_compute in
    match interactionCreate details_down 1 (round_robin 6) bgc_bob ann_cached with
    | Some (r, _) => r
    | None => None
    end.

Definition orphans_reply_world : World :=
  Eval vm_compute in
    match interactionCreate details_down 1 (round_robin 6) bgc_bob ann_cached with
    | Some (_, w) => w
    | None => fresh
    end.

Definition orphans_world : World :=
  Eval vm_compute in
    match aftermath details_down 1 (round_robin 6) (round_robin 6) bgc_bob ann_cached with
    | Some (_, w) => w
    | None => fresh
    end.

(** ** The vocabulary of the further properties *)

(** A metric fetch with [n] turns of the loop left: [safeAxiosGet] on [url]
    followed by the reading [read] of the response. *)
Definition fetch_with {A : Type} (url : string) (read : Response → prog A) (n : nat)
    : prog A :=
  let! res := safeAxiosGet_loop url default_retries default_delay n in
  read res.

(** The continuation of such a fetch while its request is in flight, with
    [n] turns left after this one. *)
Definition fetch_on_reply {A : Type} (url : string) (read : Response → prog A) (n : nat)
    : Reply → prog A :=
  λ reply,
    let! res :=
      (let! turn :=
         try_catch
           (let! response := match reply with
                             | Fulfilled res => Ret res
                             | Rejected err => Throw err
                             end in
            CacheSet url response (Ret (Some response)))
           (λ err,
              if is_rate_limited err
              then Sleep default_delay (Ret None)
              else Throw err) in
       match turn with
       | Some res => Ret res
       | None => safeAxiosGet_loop url default_retries default_delay n
       end) in
    read res.

(** What reading a response gives, for the two readings of the file. *)
Definition read_details (res : Response) : completion Body := Normal (body res).

Definition read_count (res : Response) : completion Z :=
  match data (body res) with
  | Some entries => Normal (Z.of_nat (length entries))
  | None => Abrupt LengthOfUndefined
  end.

(** [only_touches urls w w']: from [w] to [w'] the cache changed at most at
    the keys [urls] and lost or replaced nothing, the history only grew, and
    no GET request went to a URL outside [urls]. *)
Definition only_touches (urls : list string) (w w' : World) : Prop :=
  (∀ key, key ∉ urls → cache w' !! key = cache w !! key) ∧
  (∀ key res, cache w !! key = Some res → cache w' !! key = Some res) ∧
  (∃ suffix, history w' = history w ++ suffix) ∧
  (∀ u, u ∉ urls → calls_of (Get u) (history w') = calls_of (Get u) (history w)).

(** What holds of a started metric fetch on [url] at every moment of the
    event loop, [cap] being the number of requests to [url] it may reach:
    - while it awaits a reply or a timer, it is in one of the two states of
      the loop of [safeAxiosGet], the cache has no entry for [url], and the
      requests sent so far plus the turns left do not exceed [cap];
    - once it has returned, the cache holds the response it read its value
      from;
    - it is never out of fuel. *)
Definition fetch_inv {A : Type} (url : string) (read : Response → prog A)
    (outcome : Response → completion A) (cap : nat) (s : taskstate A) (w : World)
    : Prop :=
  match s with
  | Settled (Normal v) =>
      (calls_of (Get url) (history w) ≤ cap)%nat ∧
      ∃ res, cache w !! url = Some res ∧ outcome res = Normal v
  | Settled (Abrupt _) => (calls_of (Get url) (history w) ≤ cap)%nat
  | AwaitingReply req k =>
      ∃ n, req = Get url ∧ k = fetch_on_reply url read n ∧
           cache w !! url = None ∧
           (calls_of (Get url) (history w) + n ≤ cap)%nat
  | AwaitingTimer k =>
      ∃ n, k = fetch_with url read n ∧
           cache w !! url = None ∧
           (calls_of (Get url) (history w) + n ≤ cap)%nat
  | Stalled => False
  end.

(** The cache keys of the three metric fetches of a user. *)
Definition metric_urls (userId : Z) : list string :=
  [user_url userId; friends_url userId; groups_url userId].

(** The three fetches of the handler's fan-out, each with its invariant. *)
Definition fan_inv (userId : Z) (cap1 cap2 cap3 : nat) (st : FanOut Body Z Z)
    (w : World) : Prop :=
  fetch_inv (user_url userId) (λ res, Ret (body res)) read_details cap1 (first st) w ∧
  fetch_inv (friends_url userId) data_length read_count cap2 (second st) w ∧
  fetch_inv (groups_url userId) data_length read_count cap3 (third st) w.

(** A fetch of the fan-out against a service that fulfils its request with
    [res] whenever it is asked: in flight on a cold cache, or returned with
    [res] stored. *)
Definition fetch_slot {A : Type} (url : string) (read : Response → prog A)
    (outcome : Response → completion A) (res : Response) (s : taskstate A) (w : World)
    : Prop :=
  (s = AwaitingReply (Get url) (fetch_on_reply url read 2) ∧ cache w !! url = None) ∨
  (s = Settled (outcome res) ∧ cache w !! url = Some res).

(** The three fetches of a fan-out against a service that serves [r1], [r2]
    and [r3]: their slots, the history, and the rest of the cache, compared
    with the world [w0] in which the three requests had just been sent. *)
Definition slots (userId : Z) (r1 r2 r3 : Response) (w0 : World)
    (st : FanOut Body Z Z) (w : World) : Prop :=
  fetch_slot (user_url userId) (λ res, Ret (body res)) read_details r1 (first st) w ∧
  fetch_slot (friends_url userId) data_length read_count r2 (second st) w ∧
  fetch_slot (groups_url userId) data_length read_count r3 (third st) w ∧
  history w = history w0 ∧
  (∀ key, key ∉ metric_urls userId → cache w !! key = cache w0 !! key).

(** ** The vocabulary of the all-or-nothing property *)











(** * Verification *)

(** ** How [run] goes through sequencing and [try]/[catch] *)

Section RunFacts.
Variable env : Env.

Lemma run_bind {A B : Type} (p : prog A) (f : A → prog B) (w : World) :
  run env (bind p f) w =
  match run env p w with
  | Some (Normal v, w') => run env (f v) w'
  | Some (Abrupt err, w') => Some (Abrupt err, w')
  | None => None
  end.
Proof.
  revert w. induction p as [v|err| |url k IH|url res k IH|req k IH|ms k IH|k IH];
    intros w; simpl; auto.
Qed.

Lemma run_try_catch {A : Type} (p : prog A) (h : JsError → prog A) (w : World) :
  run env (try_catch p h) w =
  match run env p w with
  | Some (Normal v, w') => Some (Normal v, w')
  | Some (Abrupt err, w') => run env (h err) w'
  | None => None
  end.
Proof.
  revert w. induction p as [v|err| |url k IH|url res k IH|req k IH|ms k IH|k IH];
    intros w; simpl; auto.
Qed.

(** One turn of the loop of [safeAxiosGet], by cases on the cache and on the
    reply. *)
Lemma attempt_hit (url : string) (delay : Z) (w : World) (cached : Response) :
  cache w !! url = Some cached →
  run env (safeAxiosGet_attempt url delay) w = Some (Normal (Some cached), w).
Proof.
  intros Hhit. unfold safeAxiosGet_attempt. rewrite run_try_catch. simpl.
  rewrite Hhit. reflexivity.
Qed.

Lemma attempt_miss (url : string) (delay : Z) (w : World) :
  cache w !! url = None →
  run env (safeAxiosGet_attempt url delay) w =
  match upstream env (history w ++ [Called (Get url)]) (Get url) with
  | Fulfilled res =>
      Some (Normal (Some res), cache_set url res (record (Called (Get url)) w))
  | Rejected err =>
      if is_rate_limited err
      then Some (Normal None, record (Slept delay) (record (Called (Get url)) w))
      else Some (Abrupt err, record (Called (Get url)) w)
  end.
Proof.
  intros Hmiss. unfold safeAxiosGet_attempt. rewrite run_try_catch. simpl.
  rewrite Hmiss. simpl.
  destruct (upstream env (history w ++ [Called (Get url)]) (Get url)) as [res|err]; simpl.
  - reflexivity.
  - destruct (is_rate_limited err); reflexivity.
Qed.

Lemma loop_unfold (url : string) (retries delay : Z) (n : nat) (w : World) :
  run env (safeAxiosGet_loop url retries delay (S n)) w =
  match run env (safeAxiosGet_attempt url delay) w with
  | Some (Normal (Some res), w') => Some (Normal res, w')
  | Some (Normal None, w') => run env (safeAxiosGet_loop url retries delay n) w'
  | Some (Abrupt err, w') => Some (Abrupt err, w')
  | None => None
  end.
Proof.
  cbn [safeAxiosGet_loop]. rewrite run_bind.
  destruct (run env (safeAxiosGet_attempt url delay) w) as [[[[res|]|err] w']|];
    reflexivity.
Qed.

End RunFacts.

(** ** The fetch client *)

Section FetchClient.
Variable env : Env.

Lemma loop_rate_limited (url : string) (retries delay : Z) (n : nat) (w : World) :
  cache w !! url = None →
  (∀ h, ∃ err, upstream env h (Get url) = Rejected err ∧ is_rate_limited err = true) →
  run env (safeAxiosGet_loop url retries delay n) w =
  Some (Abrupt (RetriesExhaustedError retries url),
        {| cache := cache w; history := history w ++ backoff_trace url delay n |}).
Proof.
  intros Hmiss Hlimited. revert w Hmiss.
  induction n as [|n IH]; intros w Hmiss.
  - simpl. rewrite app_nil_r. destruct w; reflexivity.
  - rewrite loop_unfold, attempt_miss by assumption.
    destruct (Hlimited (history w ++ [Called (Get url)])) as (err & -> & ->).
    rewrite IH by assumption. simpl.
    rewrite <- !app_assoc. reflexivity.
Qed.

(** [k] rate-limited turns, then the rest of the loop. *)
Lemma loop_after_rate_limits (url : string) (retries delay : Z) (k n : nat) (w : World) :
  cache w !! url = None →
  (∀ j, (j < k)%nat → ∃ err,
     upstream env (history w ++ backoff_trace url delay j ++ [Called (Get url)]) (Get url)
       = Rejected err ∧ is_rate_limited err = true) →
  run env (safeAxiosGet_loop url retries delay (k + n)) w =
  run env (safeAxiosGet_loop url retries delay n)
      {| cache := cache w; history := history w ++ backoff_trace url delay k |}.
Proof.
  revert w. induction k as [|k IH]; intros w Hmiss Hlimited.
  - simpl. rewrite app_nil_r. destruct w; reflexivity.
  - change (S k + n)%nat with (S (k + n)).
    rewrite loop_unfold, attempt_miss by assumption.
    destruct (Hlimited 0%nat ltac:(lia)) as (err & Hreply & Hlim). simpl in Hreply.
    rewrite Hreply, Hlim, IH.
    + simpl. rewrite <- !app_assoc. reflexivity.
    + exact Hmiss.
    + intros j Hj. destruct (Hlimited (S j) ltac:(lia)) as (err' & Hreply' & Hlim').
      exists err'. split; [|exact Hlim']. simpl in *.
      rewrite <- !app_assoc. exact Hreply'.
Qed.

(** A failure that is not a 429 ends the call at whichever attempt it
    comes: after [k] rate-limited attempts and their waits, the request that
    meets it is the last event. *)
Lemma loop_fails_fast_at_any_attempt (url : string) (retries delay : Z) (k n : nat)
    (w : World) (err : JsError) :
  cache w !! url = None →
  (∀ j, (j < k)%nat → ∃ err',
     upstream env (history w ++ backoff_trace url delay j ++ [Called (Get url)]) (Get url)
       = Rejected err' ∧ is_rate_limited err' = true) →
  upstream env (history w ++ backoff_trace url delay k ++ [Called (Get url)]) (Get url)
    = Rejected err →
  is_rate_limited err = false →
  run env (safeAxiosGet_loop url retries delay (k + S n)) w =
  Some (Abrupt err,
        {| cache := cache w;
           history := history w ++ backoff_trace url delay k ++ [Called (Get url)] |}).
Proof.
  intros Hmiss Hlimited Hreply Hother.
  rewrite loop_after_rate_limits by assumption.
  rewrite loop_unfold, attempt_miss by assumption. simpl.
  rewrite <- app_assoc, Hreply, Hother. unfold record. simpl.
  rewrite <- app_assoc. reflexivity.
Qed.

(** Every way a call of [safeAxiosGet] ends, and what it leaves in the cache:
    the loop always ends; a thrown error leaves the cache as it was; a
    returned response was either cached already (and nothing changed), or is
    the fulfilled reply to the last request, stored under [url]. *)
Lemma loop_outcome (url : string) (retries delay : Z) (n : nat) (w : World) :
  ∃ c w', run env (safeAxiosGet_loop url retries delay n) w = Some (c, w') ∧
    match c with
    | Abrupt _ => cache w' = cache w
    | Normal res =>
        (cache w !! url = Some res ∧ w' = w) ∨
        (cache w !! url = None ∧ cache w' = <[url := res]> (cache w) ∧
         ∃ h, history w' = h ++ [Called (Get url)] ∧
              upstream env (history w') (Get url) = Fulfilled res)
    end.
Proof.
  revert w. induction n as [|n IH]; intros w.
  - eexists _, _. split; [reflexivity|]. reflexivity.
  - rewrite loop_unfold.
    destruct (cache w !! url) as [cached|] eqn:Hc.
    + rewrite (attempt_hit env url delay w cached Hc).
      eexists _, _. split; [reflexivity|]. left. split; reflexivity.
    + rewrite attempt_miss by assumption.
      destruct (upstream env (history w ++ [Called (Get url)]) (Get url))
        as [res|err] eqn:Hreply.
      * eexists _, _. split; [reflexivity|]. right. simpl. eauto.
      * destruct (is_rate_limited err).
        -- destruct (IH (record (Slept delay) (record (Called (Get url)) w)))
             as (c & w' & Hrun & Hc').
           exists c, w'. split; [exact Hrun|]. simpl in Hc'. rewrite Hc in Hc'.
           destruct c as [res|err']; [|exact Hc'].
           destruct Hc' as [[Habs _]|Hc']; [discriminate|]. right. exact Hc'.
        -- eexists _, _. split; [reflexivity|]. reflexivity.
Qed.

Lemma loop_cached (url : string) (retries delay : Z) (n : nat) (w : World)
    (cached : Response) :
  cache w !! url = Some cached →
  run env (safeAxiosGet_loop url retries delay (S n)) w = Some (Normal cached, w).
Proof.
  intros Hhit. rewrite loop_unfold, (attempt_hit env url delay w cached Hhit).
  reflexivity.
Qed.

(** C2: with the defaults (3 turns, 3000 ms), a call on an uncached URL that
    the service rate-limits at every attempt throws the error of the end of
    the loop, whose message names the URL, after exactly three requests, each
    followed by a 3000 ms wait (so a wait stands between any two consecutive
    requests; the third wait precedes the throw). *)
Theorem safeAxiosGet_rate_limit_exhausts (url : string) (w : World) :
  cache w !! url = None →
  (∀ h, ∃ err, upstream env h (Get url) = Rejected err ∧ is_rate_limited err = true) →
  run env (safeAxiosGet_default url) w =
  Some (Abrupt (Error ("Failed after 3 retries for URL: " +:+ url)),
        {| cache := cache w;
           history := history w ++
             [Called (Get url); Slept 3000;
              Called (Get url); Slept 3000;
              Called (Get url); Slept 3000] |}).
Proof.
  intros Hmiss Hlimited. unfold safeAxiosGet_default, safeAxiosGet.
  rewrite loop_rate_limited by assumption. reflexivity.
Qed.

(** C9: a failure that is not a 429, met by the first request of a call on an
    uncached URL, is thrown as it is: the history gains that one request and
    no wait, and the cache is untouched. *)
Theorem safeAxiosGet_fails_fast (url : string) (retries delay : Z) (w : World)
    (err : JsError) :
  0 < retries →
  cache w !! url = None →
  upstream env (history w ++ [Called (Get url)]) (Get url) = Rejected err →
  is_rate_limited err = false →
  run env (safeAxiosGet url retries delay) w =
  Some (Abrupt err, {| cache := cache w; history := history w ++ [Called (Get url)] |}).
Proof.
  intros Hpos Hmiss Hreply Hother. unfold safeAxiosGet.
  destruct (Z.to_nat retries) as [|n] eqn:Hn; [lia|].
  rewrite loop_unfold, attempt_miss by assumption.
  rewrite Hreply, Hother. reflexivity.
Qed.

(** C10: a call of [safeAxiosGet] always ends, and the cache changes only on
    a fulfilled request: if the call throws (retries used up, or any other
    error) the cache is the one it started with; if it returns, either the
    response was cached already and nothing changed, or the cache gained
    exactly the binding of [url] to the fulfilled reply of the last request. *)
Theorem safeAxiosGet_cache_only_on_success (url : string) (retries delay : Z)
    (w : World) :
  ∃ c w', run env (safeAxiosGet url retries delay) w = Some (c, w') ∧
    match c with
    | Abrupt _ => cache w' = cache w
    | Normal res =>
        (cache w !! url = Some res ∧ w' = w) ∨
        (cache w !! url = None ∧ cache w' = <[url := res]> (cache w) ∧
         ∃ h, history w' = h ++ [Called (Get url)] ∧
              upstream env (history w') (Get url) = Fulfilled res)
    end.
Proof. apply loop_outcome. Qed.

(** C3: two calls in a row on an uncached URL whose first request is
    fulfilled: both return the fulfilled response, the history gains exactly
    one request, and the second call changes nothing (it is served from the
    cache). *)
Theorem safeAxiosGet_twice_one_call (url : string) (w : World) (res : Response) :
  cache w !! url = None →
  upstream env (history w ++ [Called (Get url)]) (Get url) = Fulfilled res →
  ∃ w1,
    run env (safeAxiosGet_default url) w = Some (Normal res, w1) ∧
    run env (safeAxiosGet_default url) w1 = Some (Normal res, w1) ∧
    history w1 = history w ++ [Called (Get url)] ∧
    cache w1 !! url = Some res.
Proof.
  intros Hmiss Hreply.
  exists (cache_set url res (record (Called (Get url)) w)).
  assert (Hstored : cache (cache_set url res (record (Called (Get url)) w)) !! url
                    = Some res) by (simpl; apply lookup_insert_eq).
  unfold safeAxiosGet_default, safeAxiosGet. change (Z.to_nat default_retries) with 3%nat.
  repeat split.
  - rewrite loop_unfold, attempt_miss by assumption. rewrite Hreply. reflexivity.
  - apply loop_cached. exact Hstored.
  - exact Hstored.
Qed.

End FetchClient.

Lemma safeAxiosGet_rate_limit_exhausts_witness :
  run always_429 (safeAxiosGet_default "u") fresh =
  Some (Abrupt (Error ("Failed after 3 retries for URL: " +:+ "u")),
        {| cache := cache fresh;
           history := history fresh ++
             [Called (Get "u"); Slept 3000;
              Called (Get "u"); Slept 3000;
              Called (Get "u"); Slept 3000] |}).
Proof.
  apply (safeAxiosGet_rate_limit_exhausts always_429 "u" fresh).
  - reflexivity.
  - intros h. exists TooManyRequests. split; reflexivity.
Defined.

Lemma safeAxiosGet_fails_fast_witness :
  run (scripted (λ _, []) (Rejected ServerError) 0) (safeAxiosGet "u" 3 3000) fresh =
  Some (Abrupt ServerError, {| cache := ∅; history := [Called (Get "u")] |}).
Proof.
  apply (safeAxiosGet_fails_fast (scripted (λ _, []) (Rejected ServerError) 0)
           "u" 3 3000 fresh ServerError); [lia | reflexivity | reflexivity | reflexivity].
Defined.

Lemma safeAxiosGet_twice_one_call_witness :
  ∃ w1,
    run (scripted (λ _, []) (Fulfilled (ok_list [7; 8])) 0)
        (safeAxiosGet_default "u") fresh = Some (Normal (ok_list [7; 8]), w1) ∧
    run (scripted (λ _, []) (Fulfilled (ok_list [7; 8])) 0)
        (safeAxiosGet_default "u") w1 = Some (Normal (ok_list [7; 8]), w1) ∧
    history w1 = history fresh ++ [Called (Get "u")] ∧
    cache w1 !! "u" = Some (ok_list [7; 8]).
Proof.
  apply (safeAxiosGet_twice_one_call (scripted (λ _, []) (Fulfilled (ok_list [7; 8])) 0)
           "u" fresh (ok_list [7; 8])); reflexivity.
Defined.

(** ** The identity resolver *)

Section Resolver.
Variable env : Env.

(** One call of [getUserId], by cases on the reply to its lookup. *)
Lemma getUserId_unfold (fuel : nat) (username : string) (w : World) :
  run env (getUserId (S fuel) username) w =
  let w1 := record (Called (lookup_request username)) w in
  match upstream env (history w1) (lookup_request username) with
  | Fulfilled res =>
      match data (body res) with
      | Some (id :: _) => Some (Normal id, w1)
      | _ => Some (Abrupt (ResolutionError username (NotFoundError username)), w1)
      end
  | Rejected err =>
      if is_rate_limited err
      then run env (getUserId fuel username) (record (Slept 3000) w1)
      else Some (Abrupt (ResolutionError username err), w1)
  end.
Proof.
  cbn [getUserId]. rewrite run_try_catch, run_bind. simpl.
  unfold lookup_request.
  destruct (upstream env _ _) as [res|err]; simpl.
  - destruct (data (body res)) as [[|id rest]|]; reflexivity.
  - destruct (is_rate_limited err); reflexivity.
Qed.

(** The recursion of [getUserId] has no bound: however many lookups in a row
    are rate-limited, the function waits and looks up again, and returns the
    id as soon as a lookup is fulfilled. *)
Lemma getUserId_retries_every_time (username : string) (n fuel : nat) (w : World)
    (res : Response) (id : Z) (rest : list Z) :
  (∀ k, (k < n)%nat → ∃ err,
     upstream env (history w ++ lookup_trace username k ++ [Called (lookup_request username)])
              (lookup_request username) = Rejected err ∧
     is_rate_limited err = true) →
  upstream env (history w ++ lookup_trace username n ++ [Called (lookup_request username)])
           (lookup_request username) = Fulfilled res →
  data (body res) = Some (id :: rest) →
  (n < fuel)%nat →
  run env (getUserId fuel username) w =
  Some (Normal id,
        {| cache := cache w;
           history := history w ++ lookup_trace username n
                      ++ [Called (lookup_request username)] |}).
Proof.
  revert fuel w. induction n as [|n IH]; intros fuel w Hlimited Hok Hdata Hfuel.
  - destruct fuel as [|fuel]; [lia|]. rewrite getUserId_unfold. simpl in *.
    rewrite Hok, Hdata. reflexivity.
  - destruct fuel as [|fuel]; [lia|]. rewrite getUserId_unfold. simpl.
    destruct (Hlimited 0%nat ltac:(lia)) as (err & Hreply & Hlim). simpl in Hreply.
    rewrite Hreply, Hlim.
    rewrite (IH fuel (record (Slept 3000) (record (Called (lookup_request username)) w))).
    + simpl. rewrite <- !app_assoc. reflexivity.
    + intros k Hk. destruct (Hlimited (S k) ltac:(lia)) as (err' & Hreply' & Hlim').
      exists err'. split; [|exact Hlim']. simpl in *.
      rewrite <- !app_assoc. exact Hreply'.
    + simpl in *. rewrite <- !app_assoc. exact Hok.
    + exact Hdata.
    + lia.
Qed.

(** Against a service that rate-limits every lookup the function never
    throws: every unrolling of the recursion runs out of fuel. *)
Lemma getUserId_never_gives_up (username : string) (fuel : nat) (w : World) :
  (∀ h, ∃ err, upstream env h (lookup_request username) = Rejected err ∧
               is_rate_limited err = true) →
  run env (getUserId fuel username) w = None.
Proof.
  intros Hlimited. revert w. induction fuel as [|fuel IH]; intros w.
  - reflexivity.
  - rewrite getUserId_unfold. simpl.
    destruct (Hlimited (history w ++ [Called (lookup_request username)]))
      as (err & -> & ->).
    apply IH.
Qed.

End Resolver.

(** The half of the retry bound that the code keeps: one rate-limited lookup
    followed by a fulfilled one resolves the name, after one 3000 ms wait. *)
Lemma getUserId_one_retry_succeeds (env : Env) (username : string) (fuel : nat)
    (w : World) (err : JsError) (res : Response) (id : Z) (rest : list Z) :
  upstream env (history w ++ [Called (lookup_request username)])
           (lookup_request username) = Rejected err →
  is_rate_limited err = true →
  upstream env (history w ++ [Called (lookup_request username); Slept 3000;
                              Called (lookup_request username)])
           (lookup_request username) = Fulfilled res →
  data (body res) = Some (id :: rest) →
  run env (getUserId (2 + fuel) username) w =
  Some (Normal id,
        {| cache := cache w;
           history := history w ++ [Called (lookup_request username); Slept 3000;
                                    Called (lookup_request username)] |}).
Proof.
  intros Hfirst Hlim Hsecond Hdata.
  rewrite (getUserId_retries_every_time env username 1 (2 + fuel) w res id rest).
  - reflexivity.
  - intros k Hk. assert (k = 0%nat) as -> by lia. exists err. split; assumption.
  - exact Hsecond.
  - exact Hdata.
  - lia.
Qed.

(** C1 (where the code departs from the claim): two rate-limited lookups in a
    row do not make [getUserId] fail.  It waits a second time, looks up a
    third time, and returns the id. *)
Theorem getUserId_second_rate_limit_is_retried :
  run limited_twice (getUserId 3 "bob") fresh =
  Some (Normal 42,
        {| cache := ∅;
           history := [Called (lookup_request "bob"); Slept 3000;
                       Called (lookup_request "bob"); Slept 3000;
                       Called (lookup_request "bob")] |}).
Proof. reflexivity. Qed.

(** Any failure of the lookup that is not a 429 is thrown wrapped in the
    message of [ResolutionError]. *)
Lemma getUserId_wraps_other_failures (env : Env) (fuel : nat) (username : string)
    (w : World) (err : JsError) :
  upstream env (history w ++ [Called (lookup_request username)])
           (lookup_request username) = Rejected err →
  is_rate_limited err = false →
  run env (getUserId (S fuel) username) w =
  Some (Abrupt (ResolutionError username err),
        {| cache := cache w;
           history := history w ++ [Called (lookup_request username)] |}).
Proof.
  intros Hreply Hother. rewrite getUserId_unfold. simpl.
  rewrite Hreply, Hother. reflexivity.
Qed.

(** C4, as the code has it: when the lookup is fulfilled with an absent or
    empty [data] array, the error [getUserId] throws is not the not-found
    error itself but that error wrapped like every other failure (the
    [throw] sits inside the [try] whose [catch] wraps); the [try] block of the
    handler ends with the same error, and the history holds the lookup and
    nothing else: no metric is fetched. *)
Theorem getUserId_empty_result_is_wrapped (env : Env) (fuel : nat) (sched : list Task)
    (username : string) (w : World) (res : Response) :
  upstream env (history w ++ [Called (lookup_request username)])
           (lookup_request username) = Fulfilled res →
  data (body res) = None ∨ data (body res) = Some [] →
  run env (getUserId (S fuel) username) w =
    Some (Abrupt (ResolutionError username (NotFoundError username)),
          {| cache := cache w;
             history := history w ++ [Called (lookup_request username)] |}) ∧
  background_check env (S fuel) sched username w =
    Some (Abrupt (ResolutionError username (NotFoundError username)),
          {| cache := cache w;
             history := history w ++ [Called (lookup_request username)] |}) ∧
  message (ResolutionError username (NotFoundError username)) =
    "Failed to get user ID for " +:+ dquote +:+ username +:+ dquote +:+ ": " +:+
    ("User " +:+ dquote +:+ username +:+ dquote +:+ " not found").
Proof.
  intros Hreply Hempty.
  assert (Hrun : run env (getUserId (S fuel) username) w =
    Some (Abrupt (ResolutionError username (NotFoundError username)),
          {| cache := cache w;
             history := history w ++ [Called (lookup_request username)] |})).
  { rewrite getUserId_unfold. simpl. rewrite Hreply.
    destruct Hempty as [-> | ->]; reflexivity. }
  split; [exact Hrun|]. split; [|reflexivity].
  unfold background_check. rewrite Hrun. reflexivity.
Qed.

Lemma getUserId_empty_result_is_wrapped_witness :
  run nobody (getUserId 1 "bob") fresh =
    Some (Abrupt (ResolutionError "bob" (NotFoundError "bob")),
          {| cache := cache fresh;
             history := history fresh ++ [Called (lookup_request "bob")] |}) ∧
  background_check nobody 1 [] "bob" fresh =
    Some (Abrupt (ResolutionError "bob" (NotFoundError "bob")),
          {| cache := cache fresh;
             history := history fresh ++ [Called (lookup_request "bob")] |}) ∧
  message (ResolutionError "bob" (NotFoundError "bob")) =
    "Failed to get user ID for " +:+ dquote +:+ "bob" +:+ dquote +:+ ": " +:+
    ("User " +:+ dquote +:+ "bob" +:+ dquote +:+ " not found").
Proof.
  apply (getUserId_empty_result_is_wrapped nobody 0 [] "bob" fresh (ok_list [])).
  - reflexivity.
  - right. reflexivity.
Defined.

(** C4, as the claim has it, fails: for a name the lookup does not find, the
    error thrown is the wrapped one, which is not the not-found error. *)
Lemma getUserId_not_found_is_not_distinct :
  run nobody (getUserId 1 "bob") fresh =
    Some (Abrupt (ResolutionError "bob" (NotFoundError "bob")),
          {| cache := ∅; history := [Called (lookup_request "bob")] |}) ∧
  ResolutionError "bob" (NotFoundError "bob") ≠ NotFoundError "bob".
Proof. split; [reflexivity | discriminate]. Qed.

(** ** Account age *)

Lemma ceil_div_bounds (a b : Z) :
  0 < b → b * (ceil_div a b - 1) < a ≤ b * ceil_div a b.
Proof.
  intros Hb. unfold ceil_div.
  pose proof (Z.div_mod (- a) b ltac:(lia)) as Hdm.
  pose proof (Z.mod_pos_bound (- a) b Hb) as Hr.
  nia.
Qed.

(** The ceiling is the only integer within a day above the quotient. *)
Lemma ceil_div_unique (a b n : Z) :
  0 < b → b * (n - 1) < a ≤ b * n → n = ceil_div a b.
Proof.
  intros Hb Hn. pose proof (ceil_div_bounds a b Hb) as Hc. nia.
Qed.

(** C6: the age [calculateAccountAge] returns is the ceiling of the absolute
    difference of the clock reading and the creation time, counted in days:
    it is the one integer [age] with [age - 1 < |now - created| / day <= age].
    So any nonzero difference, however small, gives an age of at least 1. *)
Theorem calculateAccountAge_is_ceiling (env : Env) (w : World) (createdAt : Z) :
  ∃ age,
    run env (calculateAccountAge (Some createdAt)) w =
      Some (Normal (Num age), record (ClockRead (clock env (history w))) w) ∧
    (age - 1) * ms_per_day < Z.abs (clock env (history w) - createdAt) ≤ age * ms_per_day ∧
    (∀ n, (n - 1) * ms_per_day < Z.abs (clock env (history w) - createdAt) ≤ n * ms_per_day
          → n = age) ∧
    (clock env (history w) ≠ createdAt → 1 ≤ age).
Proof.
  exists (diffDays (clock env (history w)) createdAt).
  split; [reflexivity|].
  unfold diffDays.
  pose proof (ceil_div_bounds (Z.abs (clock env (history w) - createdAt)) ms_per_day
                ltac:(reflexivity)) as Hc.
  repeat split.
  - lia.
  - lia.
  - intros n Hn. apply ceil_div_unique; [reflexivity | lia].
  - intros Hne. unfold ms_per_day in *. lia.
Qed.

(** Truncation would differ: one millisecond of age is one day, not zero. *)
Example diffDays_is_not_truncation :
  diffDays 1 0 = 1 ∧ Z.abs (1 - 0) / ms_per_day = 0.
Proof. split; reflexivity. Qed.

(** ** The verdict *)

(** C7: for integer measurements, each criterion of [createResultsEmbed] is
    met exactly when the measurement is at least its threshold (90 days, 20
    friends, 30 groups; equality passes), [passed] holds exactly when all
    three are met, and the embed returned is built from these verdicts (its
    colour is green exactly when [passed]). *)
Theorem createResultsEmbed_verdicts (env : Env) (username : string) (a f g : Z)
    (w : World) :
  let v := verdicts (Num a) (Num f) (Num g) in
  run env (createResultsEmbed username (Num a) (Num f) (Num g)) w =
    Some (Normal (build_embed username (Num a) (Num f) (Num g) v (clock env (history w))),
          record (ClockRead (clock env (history w))) w) ∧
  (ageMet v = true ↔ minAge ≤ a) ∧
  (friendsMet v = true ↔ minFriends ≤ f) ∧
  (groupsMet v = true ↔ minGroups ≤ g) ∧
  (passed v = true ↔ ageMet v = true ∧ friendsMet v = true ∧ groupsMet v = true) ∧
  (color (build_embed username (Num a) (Num f) (Num g) v (clock env (history w))) = green
   ↔ passed v = true) ∧
  verdicts (Num minAge) (Num minFriends) (Num minGroups) =
    {| ageMet := true; friendsMet := true; groupsMet := true; passed := true |}.
Proof.
  intros v. split; [reflexivity|].
  split; [apply bool_decide_eq_true|].
  split; [apply bool_decide_eq_true|].
  split; [apply bool_decide_eq_true|].
  split.
  { subst v. unfold verdicts. cbn [ageMet friendsMet groupsMet passed].
    rewrite !andb_true_iff. tauto. }
  split; [|reflexivity].
  cbn [build_embed color]. destruct (passed v); split; intros H;
    first [reflexivity | discriminate H].
Qed.

(** C5, as the code has it: [createResultsEmbed] does not check its counts.
    A negative friend or group count is compared like any other measurement:
    it is below its threshold, so its criterion and the overall verdict are
    false, and the embed the call returns for such a profile is red, shows the
    failed mark and the negative number in the field of that criterion, and
    reads FAILED.  The statement is about the embed returned; what the embed
    builder itself may refuse (a title that is too long) is left aside. *)
Theorem createResultsEmbed_negative_counts_fail (env : Env) (username : string)
    (accountAge : JsNum) (friendsCount groupsCount : Z) (w : World)
    (embed : Embed) (w' : World) :
  friendsCount < 0 ∨ groupsCount < 0 →
  run env (createResultsEmbed username accountAge (Num friendsCount) (Num groupsCount)) w
    = Some (Normal embed, w') →
  passed (verdicts accountAge (Num friendsCount) (Num groupsCount)) = false ∧
  (friendsCount < 0 →
     friendsMet (verdicts accountAge (Num friendsCount) (Num groupsCount)) = false ∧
     field_value <$> fields embed !! 1%nat
       = Some ("❌ " +:+ pretty friendsCount +:+ " friends (min 20)")) ∧
  (groupsCount < 0 →
     groupsMet (verdicts accountAge (Num friendsCount) (Num groupsCount)) = false ∧
     field_value <$> fields embed !! 2%nat
       = Some ("❌ " +:+ pretty groupsCount +:+ " groups (min 30)")) ∧
  color embed = red ∧
  field_value <$> fields embed !! 3%nat = Some "🔴 FAILED".
Proof.
  intros Hneg Hrun. cbn in Hrun. injection Hrun as <- _.
  assert (Hf : friendsCount < 0 → js_ge (Num friendsCount) minFriends = false).
  { intros H. apply bool_decide_eq_false_2. unfold minFriends. lia. }
  assert (Hg : groupsCount < 0 → js_ge (Num groupsCount) minGroups = false).
  { intros H. apply bool_decide_eq_false_2. unfold minGroups. lia. }
  assert (Hp : passed (verdicts accountAge (Num friendsCount) (Num groupsCount)) = false).
  { unfold verdicts. cbn [passed].
    destruct Hneg as [H|H]; [rewrite (Hf H)|rewrite (Hg H)];
      rewrite ?andb_false_r; reflexivity. }
  split; [exact Hp|].
  cbn [build_embed fields color lookup list_lookup fmap option_fmap option_map
       field_value].
  rewrite Hp. unfold verdicts. cbn [friendsMet groupsMet js_show].
  split; [|split; [|split; reflexivity]].
  - intros H. rewrite (Hf H). split; reflexivity.
  - intros H. rewrite (Hg H). split; reflexivity.
Qed.

Lemma createResultsEmbed_negative_counts_fail_witness :
  passed (verdicts (Num 100) (Num (-1)) (Num 40)) = false ∧
  (-1 < 0 →
     friendsMet (verdicts (Num 100) (Num (-1)) (Num 40)) = false ∧
     field_value <$>
       fields (build_embed "bob" (Num 100) (Num (-1)) (Num 40)
                 (verdicts (Num 100) (Num (-1)) (Num 40)) 0) !! 1%nat
       = Some ("❌ " +:+ pretty (-1) +:+ " friends (min 20)")) ∧
  (40 < 0 →
     groupsMet (verdicts (Num 100) (Num (-1)) (Num 40)) = false ∧
     field_value <$>
       fields (build_embed "bob" (Num 100) (Num (-1)) (Num 40)
                 (verdicts (Num 100) (Num (-1)) (Num 40)) 0) !! 2%nat
       = Some ("❌ " +:+ pretty 40 +:+ " groups (min 30)")) ∧
  color (build_embed "bob" (Num 100) (Num (-1)) (Num 40)
           (verdicts (Num 100) (Num (-1)) (Num 40)) 0) = red ∧
  field_value <$>
    fields (build_embed "bob" (Num 100) (Num (-1)) (Num 40)
              (verdicts (Num 100) (Num (-1)) (Num 40)) 0) !! 3%nat
    = Some "🔴 FAILED".
Proof.
  apply (createResultsEmbed_negative_counts_fail always_429 "bob" (Num 100) (-1) 40
           fresh
           (build_embed "bob" (Num 100) (Num (-1)) (Num 40)
              (verdicts (Num 100) (Num (-1)) (Num 40)) 0)
           (record (ClockRead 0) fresh)).
  - left. lia.
  - reflexivity.
Defined.

(** C5, as the claim has it, fails: a profile with negative counts is not
    rejected.  The call returns an embed (red, with both criteria unmet). *)
Lemma createResultsEmbed_accepts_negative_counts :
  ∃ embed,
    run always_429 (createResultsEmbed "bob" (Num 100) (Num (-1)) (Num (-5))) fresh =
      Some (Normal embed, {| cache := ∅; history := [ClockRead 0] |}) ∧
    color embed = red ∧
    field_value <$> fields embed =
      ["✅ 100 days (min 90)"; "❌ -1 friends (min 20)"; "❌ -5 groups (min 30)";
       "🔴 FAILED"].
Proof. eexists. split; [reflexivity|]. split; reflexivity. Qed.

(** ** The fan-out *)

Section Bounds.

Lemma awaits_within_mono {A : Type} (p : prog A) (n m : nat) :
  (n ≤ m)%nat → awaits_within n p → awaits_within m p.
Proof.
  revert n m. induction p as [v|err| |url k IH|url res k IH|req k IH|ms k IH|k IH];
    intros n m Hle; simpl; auto.
  - intros H hit. eapply IH; eauto.
  - apply IH; assumption.
  - destruct n as [|n]; [tauto|]. destruct m as [|m]; [lia|].
    intros H reply. eapply (IH reply n m); [lia|]. apply H.
  - destruct n as [|n]; [tauto|]. destruct m as [|m]; [lia|].
    apply IH. lia.
  - intros H t. eapply IH; eauto.
Qed.

Lemma awaits_within_bind {A B : Type} (p : prog A) (f : A → prog B) (n m : nat) :
  awaits_within n p → (∀ v, awaits_within m (f v)) →
  awaits_within (n + m) (bind p f).
Proof.
  intros Hp Hf. revert n Hp.
  induction p as [v|err| |url k IH|url res k IH|req k IH|ms k IH|k IH];
    intros n Hp; simpl in *; auto.
  - apply (awaits_within_mono _ m); [lia | apply Hf].
  - destruct n as [|n]; [tauto|]. simpl. intros reply. apply IH, Hp.
  - destruct n as [|n]; [tauto|]. simpl. apply IH, Hp.
Qed.

Lemma awaits_within_try_catch {A : Type} (p : prog A) (h : JsError → prog A)
    (n m : nat) :
  awaits_within n p → (∀ err, awaits_within m (h err)) →
  awaits_within (n + m) (try_catch p h).
Proof.
  intros Hp Hh. revert n Hp.
  induction p as [v|err| |url k IH|url res k IH|req k IH|ms k IH|k IH];
    intros n Hp; simpl in *; auto.
  - apply (awaits_within_mono _ m); [lia | apply Hh].
  - destruct n as [|n]; [tauto|]. simpl. intros reply. apply IH, Hp.
  - destruct n as [|n]; [tauto|]. simpl. apply IH, Hp.
Qed.

(** A turn of the loop awaits at most twice: the request and the backoff. *)
Lemma attempt_awaits (url : string) (delay : Z) :
  awaits_within 2 (safeAxiosGet_attempt url delay).
Proof.
  unfold safeAxiosGet_attempt.
  apply (awaits_within_try_catch _ _ 1 1).
  - simpl. intros [cached|]; simpl; [exact I|]. intros [res|err]; exact I.
  - intros err. destruct (is_rate_limited err); simpl; exact I.
Qed.

Lemma loop_awaits (url : string) (retries delay : Z) (n : nat) :
  awaits_within (2 * n) (safeAxiosGet_loop url retries delay n).
Proof.
  induction n as [|n IH]; [exact I|].
  cbn [safeAxiosGet_loop].
  replace (2 * S n)%nat with (2 + 2 * n)%nat by lia.
  apply awaits_within_bind; [apply attempt_awaits|].
  intros [res|]; [exact I | exact IH].
Qed.

Lemma safeAxiosGet_default_awaits (url : string) :
  awaits_within 6 (safeAxiosGet_default url).
Proof. apply (loop_awaits url default_retries default_delay 3). Qed.

Lemma getUserDetails_awaits (userId : Z) : awaits_within 6 (getUserDetails userId).
Proof.
  apply (awaits_within_bind _ _ 6 0); [apply safeAxiosGet_default_awaits|].
  intros res. exact I.
Qed.

Lemma getFriendsCount_awaits (userId : Z) : awaits_within 6 (getFriendsCount userId).
Proof.
  apply (awaits_within_bind _ _ 6 0); [apply safeAxiosGet_default_awaits|].
  intros res. unfold data_length. destruct (data (body res)); exact I.
Qed.

Lemma getGroupsCount_awaits (userId : Z) : awaits_within 6 (getGroupsCount userId).
Proof.
  apply (awaits_within_bind _ _ 6 0); [apply safeAxiosGet_default_awaits|].
  intros res. unfold data_length. destruct (data (body res)); exact I.
Qed.

Lemma settles_within_mono {A : Type} (s : taskstate A) (n m : nat) :
  (n ≤ m)%nat → settles_within n s → settles_within m s.
Proof.
  intros Hle. destruct s as [c|req k|k|]; simpl; auto.
  - destruct n as [|n]; [tauto|]. destruct m as [|m]; [lia|].
    intros H reply. apply (awaits_within_mono _ n); [lia | apply H].
  - destruct n as [|n]; [tauto|]. destruct m as [|m]; [lia|].
    apply awaits_within_mono. lia.
Qed.

Lemma settles_within_0 {A : Type} (s : taskstate A) :
  settles_within 0 s → ∃ c, s = Settled c.
Proof. destruct s as [c|req k|k|]; simpl; [eauto | tauto ..]. Qed.

End Bounds.

Lemma turns_of_nil (t : Task) : turns_of t [] = 0%nat.
Proof. reflexivity. Qed.

Lemma turns_of_cons (t t' : Task) (sched : list Task) :
  turns_of t (t' :: sched) =
  if decide (t' = t) then S (turns_of t sched) else turns_of t sched.
Proof. unfold turns_of. rewrite filter_cons. destruct (decide (t' = t)); reflexivity. Qed.

Section EventLoopFacts.
Variable env : Env.

Lemma advance_settles {A : Type} (p : prog A) (n : nat) (w : World) :
  awaits_within n p → settles_within n (advance env p w).1.
Proof.
  revert w. induction p as [v|err| |url k IH|url res k IH|req k IH|ms k IH|k IH];
    intros w Hp; simpl in *; auto.
Qed.

(** A turn brings a started call one await closer to settling. *)
Lemma resume_settles {A : Type} (s : taskstate A) (n : nat) (w : World) :
  settles_within (S n) s → settles_within n (resume env s w).1.
Proof.
  destruct s as [c|req k|k|]; simpl; auto.
  - intros H. apply advance_settles, H.
  - intros H. apply advance_settles, H.
Qed.

Lemma resume_settled {A : Type} (c : completion A) (w : World) :
  resume env (Settled c) w = (Settled c, w).
Proof. reflexivity. Qed.

Lemma turns_settled {A : Type} (n : nat) (c : completion A) (w : World) :
  turns env n (Settled c) w = (Settled c, w).
Proof. induction n as [|n IH]; [reflexivity | exact IH]. Qed.

(** The two ways of running agree: a call that is given its turns one after
    the other, with nothing in between, ends as [run] says. *)
Lemma run_is_turns {A : Type} (p : prog A) (n : nat) (w : World) :
  awaits_within n p →
  ∃ c w', run env p w = Some (c, w') ∧
          turns env n (advance env p w).1 (advance env p w).2 = (Settled c, w').
Proof.
  revert n w. induction p as [v|err| |url k IH|url res k IH|req k IH|ms k IH|k IH];
    intros n w Hp; simpl in *.
  - eexists _, _. split; [reflexivity | apply turns_settled].
  - eexists _, _. split; [reflexivity | apply turns_settled].
  - destruct Hp.
  - apply IH, Hp.
  - apply IH, Hp.
  - destruct n as [|n]; [destruct Hp|]. simpl.
    destruct (IH (upstream env (history w ++ [Called req]) req) n
                 (record (Called req) w) (Hp _)) as (c & w' & Hrun & Hturns).
    exists c, w'. split; [exact Hrun|].
    destruct (advance env (k _) _) as [s1 w1]. exact Hturns.
  - destruct n as [|n]; [destruct Hp|]. simpl.
    destruct (IH n (record (Slept ms) w) Hp) as (c & w' & Hrun & Hturns).
    exists c, w'. split; [exact Hrun|].
    destruct (advance env k _) as [s1 w1]. exact Hturns.
  - apply IH, Hp.
Qed.

(** [Promise.all] has settled once all three calls have. *)
Lemma all_settled_promise_settled {A B C : Type} (st : FanOut A B C) :
  settles_within 0 (first st) → settles_within 0 (second st) →
  settles_within 0 (third st) → is_Some (promise_settled st).
Proof.
  destruct st as [s1 s2 s3]. cbn [first second third]. intros H1 H2 H3.
  destruct (settles_within_0 _ H1) as [[a|ea] ->],
           (settles_within_0 _ H2) as [[b|eb] ->],
           (settles_within_0 _ H3) as [[c|ec] ->];
    unfold promise_settled, rejection, fulfilment; simpl; eauto.
Qed.

(** The loop hands back a settled [Promise.all], whenever it hands back. *)
Lemma event_loop_settled {A B C : Type} (sched : list Task) (st st' : FanOut A B C)
    (w w' : World) :
  event_loop env sched st w = Some (st', w') → is_Some (promise_settled st').
Proof.
  revert st w. induction sched as [|t sched IH]; intros st w; simpl.
  - destruct (promise_settled st) eqn:E; [|discriminate].
    intros [= <- <-]. rewrite E. eauto.
  - destruct (promise_settled st) eqn:E.
    + intros [= <- <-]. rewrite E. eauto.
    + destruct (resume_task env t st w) as [st1 w1]. apply IH.
Qed.

(** With enough turns for each call, the loop ends. *)
Lemma event_loop_total {A B C : Type} (sched : list Task) (st : FanOut A B C)
    (w : World) (n1 n2 n3 : nat) :
  settles_within n1 (first st) → settles_within n2 (second st) →
  settles_within n3 (third st) →
  (n1 ≤ turns_of Task1 sched)%nat → (n2 ≤ turns_of Task2 sched)%nat →
  (n3 ≤ turns_of Task3 sched)%nat →
  is_Some (event_loop env sched st w).
Proof.
  revert st w n1 n2 n3.
  induction sched as [|t sched IH]; intros st w n1 n2 n3 H1 H2 H3 L1 L2 L3.
  - rewrite turns_of_nil in L1, L2, L3.
    assert (n1 = 0 ∧ n2 = 0 ∧ n3 = 0)%nat as (-> & -> & ->) by lia.
    destruct (all_settled_promise_settled st H1 H2 H3) as [c Hc].
    simpl. rewrite Hc. eauto.
  - cbn [event_loop]. destruct (promise_settled st) eqn:E; [eauto|].
    destruct (resume_task env t st w) as [st1 w1] eqn:Er.
    rewrite turns_of_cons in L1, L2, L3.
    destruct t; unfold resume_task in Er; simpl in L1, L2, L3.
    + destruct (resume env (first st) w) as [s w2] eqn:Es.
      injection Er as <- <-.
      apply (IH _ _ (pred n1) n2 n3); simpl; auto; [|lia].
      replace s with (resume env (first st) w).1 by (rewrite Es; reflexivity).
      destruct n1 as [|n1]; simpl.
      * destruct (settles_within_0 _ H1) as [c ->]. exact I.
      * apply resume_settles, H1.
    + destruct (resume env (second st) w) as [s w2] eqn:Es.
      injection Er as <- <-.
      apply (IH _ _ n1 (pred n2) n3); simpl; auto; [|lia].
      replace s with (resume env (second st) w).1 by (rewrite Es; reflexivity).
      destruct n2 as [|n2]; simpl.
      * destruct (settles_within_0 _ H2) as [c ->]. exact I.
      * apply resume_settles, H2.
    + destruct (resume env (third st) w) as [s w2] eqn:Es.
      injection Er as <- <-.
      apply (IH _ _ n1 n2 (pred n3)); simpl; auto; [|lia].
      replace s with (resume env (third st) w).1 by (rewrite Es; reflexivity).
      destruct n3 as [|n3]; simpl.
      * destruct (settles_within_0 _ H3) as [c ->]. exact I.
      * apply resume_settles, H3.
Qed.

End EventLoopFacts.

(** ** The handler: when the fan-out settles *)

Lemma fulfilment_inv {A B C : Type} (st : FanOut A B C) (a : A) (b : B) (c : C) :
  fulfilment st = Some (a, b, c) →
  first st = Settled (Normal a) ∧ second st = Settled (Normal b) ∧
  third st = Settled (Normal c).
Proof.
  destruct st as [[[a'|]| | |] [[b'|]| | |] [[c'|]| | |]]; unfold fulfilment; simpl;
    try discriminate.
  intros [= -> -> ->]. auto.
Qed.

(** [Promise.all] rejects exactly when one of the three calls has thrown. *)
Lemma rejection_None_iff {A B C : Type} (st : FanOut A B C) :
  rejection st = None ↔
  ∀ err, first st ≠ Settled (Abrupt err) ∧ second st ≠ Settled (Abrupt err) ∧
         third st ≠ Settled (Abrupt err).
Proof.
  destruct st as [s1 s2 s3]. unfold rejection. cbn [first second third]. split.
  - intros H err.
    destruct s1 as [[|]| | |], s2 as [[|]| | |], s3 as [[|]| | |];
      (discriminate H || (repeat split; discriminate)).
  - intros H.
    destruct s1 as [[|e1]| | |];
      try (destruct (H e1) as (Hn & _ & _); congruence);
      (destruct s2 as [[|e2]| | |];
       try (destruct (H e2) as (_ & Hn & _); congruence);
       (destruct s3 as [[|e3]| | |];
        try (destruct (H e3) as (_ & _ & Hn); congruence); reflexivity)).
Qed.

Section Handler.
Variable env : Env.

(** The fan-out of the handler settles under any schedule that gives each of
    the three calls six turns (three requests and three waits at most). *)
Lemma fan_out_total (userId : Z) (sched : list Task) (w : World) :
  (∀ t, (6 ≤ turns_of t sched)%nat) →
  ∃ st w', fan_out env userId sched w = Some (st, w') ∧ is_Some (promise_settled st).
Proof.
  intros Hfair. unfold fan_out, promise_all, start_all.
  destruct (advance env (getUserDetails userId) w) as [s1 w1] eqn:E1.
  destruct (advance env (getFriendsCount userId) w1) as [s2 w2] eqn:E2.
  destruct (advance env (getGroupsCount userId) w2) as [s3 w3] eqn:E3.
  destruct (event_loop_total env sched (mkFanOut s1 s2 s3) w3 6 6 6) as [[st w'] Hloop];
    cbn [first second third]; auto.
  - replace s1 with (advance env (getUserDetails userId) w).1 by (rewrite E1; reflexivity).
    apply advance_settles, getUserDetails_awaits.
  - replace s2 with (advance env (getFriendsCount userId) w1).1 by (rewrite E2; reflexivity).
    apply advance_settles, getFriendsCount_awaits.
  - replace s3 with (advance env (getGroupsCount userId) w2).1 by (rewrite E3; reflexivity).
    apply advance_settles, getGroupsCount_awaits.
  - exists st, w'. split; [exact Hloop|]. eapply event_loop_settled, Hloop.
Qed.

Lemma present_runs (userDetails : Body) (friendsCount groupsCount : Z) (w : World) :
  run env (present userDetails friendsCount groupsCount) w =
  let now := clock env (history w) in
  let accountAge := age_at now (created userDetails) in
  let now' := clock env (history w ++ [ClockRead now]) in
  Some (Normal (build_embed (js_string (name userDetails)) accountAge
                  (Num friendsCount) (Num groupsCount)
                  (verdicts accountAge (Num friendsCount) (Num groupsCount)) now'),
        record (ClockRead now') (record (ClockRead now) w)).
Proof. reflexivity. Qed.

End Handler.

(** ** One failing call fails the whole fan-out, whatever the schedule *)

Section FanOutFailure.
Variable env : Env.

Lemma doomed_not_fulfilled {A : Type} (s : taskstate A) (v : A) :
  doomed env s → s ≠ Settled (Normal v).
Proof.
  intros Hd ->. destruct (Hd fresh) as [err Herr]. discriminate Herr.
Qed.

Lemma doomed_resume {A : Type} (s : taskstate A) (w : World) :
  doomed env s → doomed env (resume env s w).1.
Proof.
  intros Hd. destruct (Hd w) as [err ->]. intros w'. exists err. reflexivity.
Qed.

(** If one of the three calls is doomed, [Promise.all] can only reject. *)
Lemma event_loop_doomed {A B C : Type} (sched : list Task) (st st' : FanOut A B C)
    (w w' : World) :
  doomed env (first st) ∨ doomed env (second st) ∨ doomed env (third st) →
  event_loop env sched st w = Some (st', w') →
  ∃ err, rejection st' = Some err.
Proof.
  revert st w. induction sched as [|t sched IH]; intros st w Hd; cbn [event_loop].
  - destruct (promise_settled st) as [c|] eqn:Hs; [|discriminate].
    intros [= <- <-]. unfold promise_settled in Hs.
    destruct (rejection st) as [err|]; [eauto|].
    destruct (fulfilment st) as [[[a b] c']|] eqn:Hful; [|discriminate].
    destruct (fulfilment_inv st _ _ _ Hful) as (H1 & H2 & H3).
    destruct Hd as [Hd|[Hd|Hd]].
    + destruct (doomed_not_fulfilled _ a Hd H1).
    + destruct (doomed_not_fulfilled _ b Hd H2).
    + destruct (doomed_not_fulfilled _ c' Hd H3).
  - destruct (promise_settled st) as [c|] eqn:Hs.
    + intros [= <- <-]. unfold promise_settled in Hs.
      destruct (rejection st) as [err|]; [eauto|].
      destruct (fulfilment st) as [[[a b] c']|] eqn:Hful; [|discriminate].
      destruct (fulfilment_inv st _ _ _ Hful) as (H1 & H2 & H3).
      destruct Hd as [Hd|[Hd|Hd]].
      * destruct (doomed_not_fulfilled _ a Hd H1).
      * destruct (doomed_not_fulfilled _ b Hd H2).
      * destruct (doomed_not_fulfilled _ c' Hd H3).
    + destruct (resume_task env t st w) as [st1 w1] eqn:Er. apply IH.
      destruct t; unfold resume_task in Er.
      * destruct (resume env (first st) w) as [s w2] eqn:Es. injection Er as <- <-.
        cbn [first second third].
        destruct Hd as [Hd|[Hd|Hd]]; auto.
        left. replace s with (resume env (first st) w).1 by (rewrite Es; reflexivity).
        apply doomed_resume, Hd.
      * destruct (resume env (second st) w) as [s w2] eqn:Es. injection Er as <- <-.
        cbn [first second third].
        destruct Hd as [Hd|[Hd|Hd]]; auto.
        right; left.
        replace s with (resume env (second st) w).1 by (rewrite Es; reflexivity).
        apply doomed_resume, Hd.
      * destruct (resume env (third st) w) as [s w2] eqn:Es. injection Er as <- <-.
        cbn [first second third].
        destruct Hd as [Hd|[Hd|Hd]]; auto.
        right; right.
        replace s with (resume env (third st) w).1 by (rewrite Es; reflexivity).
        apply doomed_resume, Hd.
Qed.

(** The first step of [getUserDetails] leaves the cache alone. *)
Lemma advance_getUserDetails_cache (userId : Z) (w : World) :
  cache (advance env (getUserDetails userId) w).2 = cache w.
Proof.
  unfold getUserDetails, safeAxiosGet_default, safeAxiosGet.
  change (Z.to_nat default_retries) with 3%nat. simpl.
  destruct (cache w !! user_url userId); reflexivity.
Qed.

(** On a miss, [getFriendsCount] is suspended at its request, and a failure
    other than a 429 is what it then throws. *)
Lemma advance_getFriendsCount_miss (userId : Z) (w : World) :
  cache w !! friends_url userId = None →
  ∃ k, advance env (getFriendsCount userId) w =
         (AwaitingReply (Get (friends_url userId)) k,
          record (Called (Get (friends_url userId))) w) ∧
       ∀ err w', is_rate_limited err = false →
                 advance env (k (Rejected err)) w' = (Settled (Abrupt err), w').
Proof.
  intros Hmiss.
  unfold getFriendsCount, safeAxiosGet_default, safeAxiosGet.
  change (Z.to_nat default_retries) with 3%nat. simpl. rewrite Hmiss. simpl.
  eexists. split; [reflexivity|].
  intros err w' Hother. simpl. rewrite Hother. reflexivity.
Qed.

(** The partial failure: when the friends request can only fail with an
    error that is not a 429, then under every schedule that lets the calls
    finish the fan-out of the handler rejects.  What the details and the
    groups calls do does not matter. *)
Lemma fan_out_rejects_when_friends_fail (userId : Z) (sched : list Task) (w : World)
    (err : JsError) :
  cache w !! friends_url userId = None →
  (∀ h, upstream env h (Get (friends_url userId)) = Rejected err) →
  is_rate_limited err = false →
  (∀ t, (6 ≤ turns_of t sched)%nat) →
  ∃ st w' err',
    fan_out env userId sched w = Some (st, w') ∧
    rejection st = Some err' ∧
    promise_settled st = Some (Abrupt err').
Proof.
  intros Hmiss Hfail Hother Hfair.
  destruct (fan_out_total env userId sched w Hfair) as (st & w' & Hfan & _).
  assert (Hrej : ∃ err', rejection st = Some err').
  { unfold fan_out, promise_all, start_all in Hfan.
    pose proof (advance_getUserDetails_cache userId w) as Hc.
    destruct (advance env (getUserDetails userId) w) as [s1 w1]. simpl in Hc.
    destruct (advance_getFriendsCount_miss userId w1) as (k & Hadv & Hk);
      [rewrite Hc; exact Hmiss|].
    rewrite Hadv in Hfan.
    destruct (advance env (getGroupsCount userId) _) as [s3 w3].
    eapply event_loop_doomed; [|exact Hfan].
    right; left. cbn [second]. intros w0. exists err. simpl.
    rewrite Hfail, Hk by assumption. reflexivity. }
  destruct Hrej as [err' Hrej]. exists st, w', err'.
  split; [exact Hfan|]. split; [exact Hrej|].
  unfold promise_settled. rewrite Hrej. reflexivity.
Qed.

End FanOutFailure.

(** The first end-to-end example of the specification: created 95 days ago,
    25 friends, 35 groups; everything passes. *)
Example bgc_bob_passes :
  ∃ embed w',
    interactionCreate sample_service 1 (round_robin 6) bgc_bob fresh
      = Some (Some (ReplyEmbeds [embed]), w') ∧
    color embed = green ∧
    field_value <$> fields embed =
      ["✅ 95 days (min 90)"; "✅ 25 friends (min 20)"; "✅ 35 groups (min 30)";
       "🟢 PASSED"].
Proof. eexists _, _. split; [vm_compute; reflexivity|]. split; reflexivity. Qed.

(** * Further properties of the code *)

(** ** The fetch client under any service *)

Section FetchClientMore.
Variable env : Env.

(** The history a run of the loop leaves, whatever the service answers: some
    rate-limited turns, then at most one more request. *)
Lemma loop_history (url : string) (retries delay : Z) (n : nat) (w : World) :
  ∃ c w' k (last : bool),
    run env (safeAxiosGet_loop url retries delay n) w = Some (c, w') ∧
    history w' = history w ++ backoff_trace url delay k
                 ++ (if last then [Called (Get url)] else []) ∧
    (k + (if last then 1 else 0) ≤ n)%nat.
Proof.
  revert w. induction n as [|n IH]; intros w.
  - exists (Abrupt (RetriesExhaustedError retries url)), w, 0%nat, false.
    split; [reflexivity|]. split; [|lia]. simpl. rewrite app_nil_r. reflexivity.
  - rewrite loop_unfold.
    destruct (cache w !! url) as [cached|] eqn:Hc.
    + rewrite (attempt_hit env url delay w cached Hc).
      exists (Normal cached), w, 0%nat, false.
      split; [reflexivity|]. split; [|lia]. simpl. rewrite app_nil_r. reflexivity.
    + rewrite attempt_miss by assumption.
      destruct (upstream env (history w ++ [Called (Get url)]) (Get url)) as [res|err].
      * eexists _, _, 0%nat, true. split; [reflexivity|]. split; [reflexivity|lia].
      * destruct (is_rate_limited err).
        -- destruct (IH (record (Slept delay) (record (Called (Get url)) w)))
             as (c & w' & k & last & Hrun & Hhist & Hk).
           exists c, w', (S k), last. split; [exact Hrun|]. split; [|lia].
           rewrite Hhist. simpl. rewrite <- !app_assoc. reflexivity.
        -- eexists _, _, 0%nat, true. split; [reflexivity|]. split; [reflexivity|lia].
Qed.

(** X1: whatever the service answers, a call of [safeAxiosGet] ends having
    issued at most [retries] requests, all to [url]: its history is some
    number [k] of request-and-wait pairs followed by at most one more request,
    [retries] requests at most in all. *)
Theorem safeAxiosGet_request_bound (url : string) (retries delay : Z) (w : World) :
  ∃ c w' k (last : bool),
    run env (safeAxiosGet url retries delay) w = Some (c, w') ∧
    history w' = history w ++ backoff_trace url delay k
                 ++ (if last then [Called (Get url)] else []) ∧
    (k + (if last then 1 else 0) ≤ Z.to_nat retries)%nat.
Proof. apply loop_history. Qed.

(** X2: with a retry count of zero or less the loop body never runs: the call
    throws the exhaustion error at once, without a request and without
    looking at the cache, so even a cached URL fails. *)
Theorem safeAxiosGet_no_retries (url : string) (retries delay : Z) (w : World) :
  retries ≤ 0 →
  run env (safeAxiosGet url retries delay) w =
  Some (Abrupt (RetriesExhaustedError retries url), w).
Proof.
  intros Hle. unfold safeAxiosGet.
  replace (Z.to_nat retries) with 0%nat by lia. reflexivity.
Qed.

(** X3: rate limiting that stops in time is invisible to the caller: after
    [k] rate-limited attempts, [k] below the retry count, a fulfilled request
    is returned and stored, and the history shows the [k] waits. *)
Theorem safeAxiosGet_recovers (url : string) (retries delay : Z) (k : nat) (w : World)
    (res : Response) :
  cache w !! url = None →
  (∀ j, (j < k)%nat → ∃ err,
     upstream env (history w ++ backoff_trace url delay j ++ [Called (Get url)]) (Get url)
       = Rejected err ∧ is_rate_limited err = true) →
  upstream env (history w ++ backoff_trace url delay k ++ [Called (Get url)]) (Get url)
    = Fulfilled res →
  (k < Z.to_nat retries)%nat →
  run env (safeAxiosGet url retries delay) w =
  Some (Normal res,
        {| cache := <[url := res]> (cache w);
           history := history w ++ backoff_trace url delay k ++ [Called (Get url)] |}).
Proof.
  intros Hmiss Hlimited Hreply Hk. unfold safeAxiosGet.
  replace (Z.to_nat retries) with (k + S (Z.to_nat retries - S k))%nat by lia.
  rewrite loop_after_rate_limits by assumption.
  rewrite loop_unfold, attempt_miss by assumption. simpl.
  rewrite <- app_assoc, Hreply. unfold cache_set, record. simpl.
  rewrite <- app_assoc. reflexivity.
Qed.

(** X4: whatever path led to it (cache hit, first request, or a request after
    some waits), a response that [safeAxiosGet] returns is the one the cache
    holds for the URL afterwards, and any later call with a positive retry
    count returns it again and changes nothing. *)
Theorem safeAxiosGet_returns_what_it_caches (url : string) (retries delay : Z)
    (retries' delay' : Z) (w w' : World) (res : Response) :
  run env (safeAxiosGet url retries delay) w = Some (Normal res, w') →
  0 < retries' →
  cache w' !! url = Some res ∧
  run env (safeAxiosGet url retries' delay') w' = Some (Normal res, w').
Proof.
  intros Hrun Hpos.
  destruct (loop_outcome env url retries delay (Z.to_nat retries) w)
    as (c & w1 & Hrun1 & Hcase).
  unfold safeAxiosGet in Hrun. rewrite Hrun1 in Hrun. injection Hrun as -> ->.
  assert (Hstored : cache w' !! url = Some res).
  { destruct Hcase as [[Hhit ->]|(_ & -> & _)]; [exact Hhit|apply lookup_insert_eq]. }
  split; [exact Hstored|]. unfold safeAxiosGet.
  destruct (Z.to_nat retries') as [|n] eqn:Hn; [lia|].
  apply loop_cached, Hstored.
Qed.

(** X5: a call of [safeAxiosGet] never changes what the cache holds for
    another URL, and never replaces or drops an entry the cache already
    holds, whether the call returns or throws. *)
Theorem safeAxiosGet_cache_frame (url : string) (retries delay : Z) (w : World) :
  ∃ c w',
    run env (safeAxiosGet url retries delay) w = Some (c, w') ∧
    (∀ key, key ≠ url → cache w' !! key = cache w !! key) ∧
    (∀ key res, cache w !! key = Some res → cache w' !! key = Some res).
Proof.
  destruct (loop_outcome env url retries delay (Z.to_nat retries) w)
    as (c & w' & Hrun & Hcase).
  exists c, w'. split; [exact Hrun|].
  assert (Hc : cache w' = cache w ∨
               (cache w !! url = None ∧ ∃ res, cache w' = <[url := res]> (cache w))).
  { destruct c as [res|err].
    - destruct Hcase as [[_ ->]|(Hmiss & Hins & _)]; [left; reflexivity|].
      right. split; [exact Hmiss|]. exists res. exact Hins.
    - left. exact Hcase. }
  destruct Hc as [->|(Hmiss & res & ->)]; [auto|].
  split.
  - intros key Hne. apply lookup_insert_ne. congruence.
  - intros key res' Hkey. rewrite lookup_insert_ne; [exact Hkey|]. congruence.
Qed.

End FetchClientMore.

Lemma safeAxiosGet_no_retries_witness :
  run always_429 (safeAxiosGet "u" 0 3000) (cache_set "u" (ok_list [1]) fresh) =
  Some (Abrupt (RetriesExhaustedError 0 "u"), cache_set "u" (ok_list [1]) fresh).
Proof.
  apply (safeAxiosGet_no_retries always_429 "u" 0 3000 (cache_set "u" (ok_list [1]) fresh)).
  lia.
Defined.

Lemma safeAxiosGet_recovers_witness :
  run limited_once (safeAxiosGet "u" 3 3000) fresh =
  Some (Normal (ok_list [7; 8]),
        {| cache := <["u" := ok_list [7; 8]]> (cache fresh);
           history := history fresh ++ backoff_trace "u" 3000 1 ++ [Called (Get "u")] |}).
Proof.
  apply (safeAxiosGet_recovers limited_once "u" 3 3000 1 fresh (ok_list [7; 8])).
  - reflexivity.
  - intros j Hj. assert (j = 0%nat) as -> by lia.
    exists TooManyRequests. split; reflexivity.
  - reflexivity.
  - vm_compute. lia.
Defined.

Lemma safeAxiosGet_returns_what_it_caches_witness :
  cache {| cache := <["u" := ok_list [7; 8]]> ∅;
           history := [Called (Get "u"); Slept 3000; Called (Get "u")] |} !! "u"
    = Some (ok_list [7; 8]) ∧
  run limited_once (safeAxiosGet "u" 1 0)
      {| cache := <["u" := ok_list [7; 8]]> ∅;
         history := [Called (Get "u"); Slept 3000; Called (Get "u")] |} =
  Some (Normal (ok_list [7; 8]),
        {| cache := <["u" := ok_list [7; 8]]> ∅;
           history := [Called (Get "u"); Slept 3000; Called (Get "u")] |}).
Proof.
  apply (safeAxiosGet_returns_what_it_caches limited_once "u" 3 3000 1 0 fresh).
  - reflexivity.
  - lia.
Defined.

(** ** The resolver under any service *)

Section ResolverMore.
Variable env : Env.

(** Every way a run of [getUserId] ends: the cache is as it was, the history
    has grown by events that start with a lookup request, and an error is the
    wrapper around a cause that is not a 429. *)
Lemma getUserId_outcome (fuel : nat) (username : string) (w : World)
    (c : completion Z) (w' : World) :
  run env (getUserId fuel username) w = Some (c, w') →
  cache w' = cache w ∧
  (∃ rest, history w' = history w ++ Called (lookup_request username) :: rest) ∧
  match c with
  | Normal _ => True
  | Abrupt err => ∃ cause, err = ResolutionError username cause ∧
                           is_rate_limited cause = false
  end.
Proof.
  revert w. induction fuel as [|fuel IH]; intros w; [discriminate|].
  rewrite getUserId_unfold. cbv zeta.
  destruct (upstream env _ _) as [res|err] eqn:Hreply.
  - destruct (data (body res)) as [[|id rest]|]; intros [= <- <-]; simpl;
      (split; [reflexivity|]); (split; [exists []; reflexivity|]);
      first [exact I | exists (NotFoundError username); split; reflexivity].
  - destruct (is_rate_limited err) eqn:Hlim.
    + intros Hrun. destruct (IH _ Hrun) as (Hcache & (rest & Hhist) & Hc).
      split; [exact Hcache|]. split; [|exact Hc].
      exists (Slept 3000 :: Called (lookup_request username) :: rest).
      rewrite Hhist. simpl. rewrite <- !app_assoc. reflexivity.
    + intros [= <- <-]. simpl. split; [reflexivity|].
      split; [exists []; reflexivity|]. exists err. split; [reflexivity|exact Hlim].
Qed.

(** X6: name lookups are never cached.  Every call of [getUserId] that ends
    (returning or throwing) has sent at least one lookup request, the first
    thing it did, and has left the cache exactly as it found it. *)
Theorem getUserId_always_asks (fuel : nat) (username : string) (w : World)
    (c : completion Z) (w' : World) :
  run env (getUserId fuel username) w = Some (c, w') →
  cache w' = cache w ∧
  ∃ rest, history w' = history w ++ Called (lookup_request username) :: rest.
Proof.
  intros Hrun. destruct (getUserId_outcome fuel username w c w' Hrun) as (H1 & H2 & _).
  split; assumption.
Qed.

(** X7: whatever [getUserId] throws, at whatever depth of its retries, is the
    wrapped error: its message is the fixed prefix with the user name,
    followed by the message of a cause that is not a 429, and it carries no
    HTTP response of its own. *)
Theorem getUserId_errors_are_wrapped (fuel : nat) (username : string) (w : World)
    (err : JsError) (w' : World) :
  run env (getUserId fuel username) w = Some (Abrupt err, w') →
  ∃ cause,
    is_rate_limited cause = false ∧
    message err = "Failed to get user ID for " +:+ dquote +:+ username +:+ dquote
                  +:+ ": " +:+ message cause ∧
    response_status err = None.
Proof.
  intros Hrun.
  destruct (getUserId_outcome fuel username w _ w' Hrun) as (_ & _ & cause & -> & Hlim).
  exists cause. split; [exact Hlim|]. split; reflexivity.
Qed.

End ResolverMore.

Lemma getUserId_always_asks_witness :
  cache {| cache := ∅;
           history := [Called (lookup_request "bob"); Slept 3000;
                       Called (lookup_request "bob"); Slept 3000;
                       Called (lookup_request "bob")] |} = cache fresh ∧
  ∃ rest,
    history {| cache := ∅;
               history := [Called (lookup_request "bob"); Slept 3000;
                           Called (lookup_request "bob"); Slept 3000;
                           Called (lookup_request "bob")] |}
    = history fresh ++ Called (lookup_request "bob") :: rest.
Proof.
  apply (getUserId_always_asks limited_twice 3 "bob" fresh (Normal 42)).
  reflexivity.
Defined.

Lemma getUserId_errors_are_wrapped_witness :
  ∃ cause,
    is_rate_limited cause = false ∧
    message (ResolutionError "bob" ServerError)
      = "Failed to get user ID for " +:+ dquote +:+ "bob" +:+ dquote
        +:+ ": " +:+ message cause ∧
    response_status (ResolutionError "bob" ServerError) = None.
Proof.
  apply (getUserId_errors_are_wrapped lookup_down 1 "bob" fresh
           (ResolutionError "bob" ServerError)
           {| cache := ∅; history := [Called (lookup_request "bob")] |}).
  reflexivity.
Defined.

(** ** The three metric fetches *)

Section MetricsMore.
Variable env : Env.

(** What a fetch through [safeAxiosGet] followed by a pure reading of the
    response returns: the reading of the response the cache then holds. *)
Lemma fetch_then_read {A : Type} (url : string) (read : Response → prog A)
    (w : World) (c : completion A) (w' : World) :
  (∀ res w0, ∃ c0, run env (read res) w0 = Some (c0, w0)) →
  run env (let! res := safeAxiosGet_default url in read res) w = Some (c, w') →
  (∃ err, c = Abrupt err ∧ cache w' !! url = None ∧ cache w' = cache w) ∨
  (∃ res, cache w' !! url = Some res ∧ run env (read res) w' = Some (c, w')).
Proof.
  intros Hpure. rewrite run_bind.
  destruct (loop_outcome env url default_retries default_delay
              (Z.to_nat default_retries) w) as (c1 & w1 & Hrun & Hcase).
  unfold safeAxiosGet_default, safeAxiosGet. rewrite Hrun.
  destruct c1 as [res|err].
  - intros Hread. destruct (Hpure res w1) as [c0 Hc0].
    rewrite Hc0 in Hread. injection Hread as <- <-.
    right. exists res. split; [|exact Hc0].
    destruct Hcase as [[Hhit ->]|(_ & -> & _)]; [exact Hhit|apply lookup_insert_eq].
  - intros [= <- <-].
    destruct (cache w !! url) as [cached|] eqn:Hc.
    + right. exists cached. rewrite Hcase, Hc. split; [reflexivity|].
      exfalso. clear Hpure.
      unfold safeAxiosGet_default, safeAxiosGet in Hrun.
      change (Z.to_nat default_retries) with 3%nat in Hrun.
      rewrite (loop_cached env url _ _ 2 w cached Hc) in Hrun. discriminate Hrun.
    + left. exists err. rewrite Hcase. auto.
Qed.

Lemma data_length_pure (res : Response) (w : World) :
  ∃ c, run env (data_length res) w = Some (c, w).
Proof. unfold data_length. destruct (data (body res)); simpl; eauto. Qed.

(** X8: what the three metric fetches return is read off the response the
    cache holds under their URL when they return: [getUserDetails] returns
    its payload, and [getFriendsCount] and [getGroupsCount] return the number
    of entries of its [data] array, which is therefore never negative. *)
Theorem metric_fetches_read_the_cached_response (userId : Z) (w w' : World) :
  (∀ details, run env (getUserDetails userId) w = Some (Normal details, w') →
     ∃ res, cache w' !! user_url userId = Some res ∧ details = body res) ∧
  (∀ n, run env (getFriendsCount userId) w = Some (Normal n, w') →
     0 ≤ n ∧
     ∃ res entries, cache w' !! friends_url userId = Some res ∧
                    data (body res) = Some entries ∧ n = Z.of_nat (length entries)) ∧
  (∀ n, run env (getGroupsCount userId) w = Some (Normal n, w') →
     0 ≤ n ∧
     ∃ res entries, cache w' !! groups_url userId = Some res ∧
                    data (body res) = Some entries ∧ n = Z.of_nat (length entries)).
Proof.
  assert (Hcount : ∀ url n,
    run env (let! res := safeAxiosGet_default url in data_length res) w
      = Some (Normal n, w') →
    0 ≤ n ∧ ∃ res entries, cache w' !! url = Some res ∧
                           data (body res) = Some entries ∧
                           n = Z.of_nat (length entries)).
  { intros url n Hrun.
    destruct (fetch_then_read url data_length w _ w' data_length_pure Hrun)
      as [(err & Habs & _)|(res & Hcached & Hread)]; [discriminate|].
    unfold data_length in Hread. destruct (data (body res)) as [entries|] eqn:Hd;
      [|discriminate].
    injection Hread as <-. split; [lia|]. eauto. }
  split; [|split; intros n; apply Hcount].
  intros details Hrun.
  destruct (fetch_then_read (user_url userId) (λ res, Ret (body res)) w _ w'
              ltac:(intros; simpl; eauto) Hrun)
    as [(err & Habs & _)|(res & Hcached & Hread)]; [discriminate|].
  injection Hread as <-. eauto.
Qed.

(** A fulfilled response without a [data] array makes the count throw, but
    only after [safeAxiosGet] has stored it. *)
Lemma count_on_malformed (url : string) (w : World) (res : Response) :
  cache w !! url = None →
  upstream env (history w ++ [Called (Get url)]) (Get url) = Fulfilled res →
  data (body res) = None →
  run env (let! r := safeAxiosGet_default url in data_length r) w =
    Some (Abrupt LengthOfUndefined, cache_set url res (record (Called (Get url)) w)) ∧
  run env (let! r := safeAxiosGet_default url in data_length r)
      (cache_set url res (record (Called (Get url)) w)) =
    Some (Abrupt LengthOfUndefined, cache_set url res (record (Called (Get url)) w)).
Proof.
  intros Hmiss Hreply Hdata.
  unfold safeAxiosGet_default, safeAxiosGet. change (Z.to_nat default_retries) with 3%nat.
  split; rewrite run_bind.
  - rewrite loop_unfold, attempt_miss by assumption. rewrite Hreply.
    unfold data_length. rewrite Hdata. reflexivity.
  - rewrite (loop_cached env url _ _ 2 _ res) by (simpl; apply lookup_insert_eq).
    unfold data_length. rewrite Hdata. reflexivity.
Qed.

(** X9: a malformed reply poisons the cache.  When the friends request is
    fulfilled with a payload that has no [data] array, [getFriendsCount]
    throws the [TypeError] of reading [.length], yet the response has been
    stored; every later call throws the same error from the cache, without a
    request, for as long as the process lives. *)
Theorem getFriendsCount_malformed_reply_is_cached (userId : Z) (w : World)
    (res : Response) :
  cache w !! friends_url userId = None →
  upstream env (history w ++ [Called (Get (friends_url userId))])
           (Get (friends_url userId)) = Fulfilled res →
  data (body res) = None →
  ∃ w1,
    run env (getFriendsCount userId) w = Some (Abrupt LengthOfUndefined, w1) ∧
    cache w1 !! friends_url userId = Some res ∧
    history w1 = history w ++ [Called (Get (friends_url userId))] ∧
    run env (getFriendsCount userId) w1 = Some (Abrupt LengthOfUndefined, w1).
Proof.
  intros Hmiss Hreply Hdata.
  destruct (count_on_malformed (friends_url userId) w res Hmiss Hreply Hdata)
    as (Hfirst & Hsecond).
  eexists. split; [exact Hfirst|]. split; [simpl; apply lookup_insert_eq|].
  split; [reflexivity|exact Hsecond].
Qed.

End MetricsMore.

Lemma getFriendsCount_malformed_reply_is_cached_witness :
  ∃ w1,
    run malformed_service (getFriendsCount 42) fresh
      = Some (Abrupt LengthOfUndefined, w1) ∧
    cache w1 !! friends_url 42 = Some (ok_user "Bob" 0) ∧
    history w1 = history fresh ++ [Called (Get (friends_url 42))] ∧
    run malformed_service (getFriendsCount 42) w1 = Some (Abrupt LengthOfUndefined, w1).
Proof.
  apply (getFriendsCount_malformed_reply_is_cached malformed_service 42 fresh
           (ok_user "Bob" 0)); reflexivity.
Defined.

(** ** The cache keys *)

Lemma string_length_append (x y : string) :
  String.length (x +:+ y) = (String.length x + String.length y)%nat.
Proof. induction x as [|a x IH]; simpl; [reflexivity | rewrite IH; reflexivity]. Qed.

Lemma string_append_inj_l (s x y : string) : x +:+ s = y +:+ s → x = y.
Proof.
  revert y. induction x as [|a x IH]; intros [|b y] H; simpl in H.
  - reflexivity.
  - apply (f_equal String.length) in H. simpl in H.
    rewrite ?string_length_append in H. simpl in H. lia.
  - apply (f_equal String.length) in H. simpl in H.
    rewrite ?string_length_append in H. simpl in H. lia.
  - injection H as -> H. f_equal. apply IH, H.
Qed.

(** X10: the cache keys of the three metric fetches never collide: each URL
    determines the user id it was built from, and no URL of one endpoint is a
    URL of another, whatever the ids.  A response cached for one user or
    endpoint is never served for another. *)
Theorem metric_urls_never_collide :
  (∀ a b, user_url a = user_url b → a = b) ∧
  (∀ a b, friends_url a = friends_url b → a = b) ∧
  (∀ a b, groups_url a = groups_url b → a = b) ∧
  (∀ a b, user_url a ≠ friends_url b) ∧
  (∀ a b, user_url a ≠ groups_url b) ∧
  (∀ a b, friends_url a ≠ groups_url b).
Proof.
  unfold user_url, friends_url, groups_url.
  repeat split.
  - intros a b H. apply String.app_inj in H. apply pretty_Z_inj, H.
  - intros a b H. apply String.app_inj, string_append_inj_l in H.
    apply pretty_Z_inj, H.
  - intros a b H. apply String.app_inj, string_append_inj_l in H.
    apply pretty_Z_inj, H.
  - intros a b H. simpl in H. discriminate H.
  - intros a b H. simpl in H. discriminate H.
  - intros a b H. simpl in H. discriminate H.
Qed.

(** ** Age and verdict together *)

(** X11: the age criterion as the handler computes it, through
    [calculateAccountAge] and then [createResultsEmbed]: because the age is
    rounded up, the criterion is met as soon as the account is more than 89
    whole days old (one millisecond more is enough), not only from 90 days
    on. *)
Theorem age_criterion_boundary (now createdAt : Z) (friendsCount groupsCount : JsNum) :
  ageMet (verdicts (age_at now (Some createdAt)) friendsCount groupsCount) = true
  ↔ 89 * ms_per_day < Z.abs (now - createdAt).
Proof.
  unfold verdicts, age_at, diffDays. cbn [ageMet js_ge].
  rewrite bool_decide_eq_true.
  pose proof (ceil_div_bounds (Z.abs (now - createdAt)) ms_per_day ltac:(reflexivity)) as Hc.
  unfold minAge. unfold ms_per_day in *. lia.
Qed.

(** X12: edges of the age computation.  The direction of time does not
    matter (a creation date in the future counts like one equally far in the
    past); the age is 0 only when the two timestamps are equal; a whole
    number of days is returned as it is, and one millisecond more gives the
    next day. *)
Theorem diffDays_edges (now createdAt : Z) :
  diffDays now createdAt = diffDays createdAt now ∧
  (diffDays now createdAt = 0 ↔ now = createdAt) ∧
  (∀ k, 0 ≤ k →
     diffDays (createdAt + k * ms_per_day) createdAt = k ∧
     diffDays (createdAt + k * ms_per_day + 1) createdAt = k + 1).
Proof.
  unfold diffDays. split; [|split].
  - f_equal. lia.
  - pose proof (ceil_div_bounds (Z.abs (now - createdAt)) ms_per_day ltac:(reflexivity)) as Hc.
    unfold ms_per_day in *. lia.
  - intros k Hk. split; symmetry; apply ceil_div_unique; try reflexivity;
      unfold ms_per_day; lia.
Qed.

(** X13: the verdict is monotone in the measurements: a profile that passes
    still passes when any of its measurements grows. *)
Theorem passed_is_monotone (a a' f f' g g' : Z) :
  a ≤ a' → f ≤ f' → g ≤ g' →
  passed (verdicts (Num a) (Num f) (Num g)) = true →
  passed (verdicts (Num a') (Num f') (Num g')) = true.
Proof.
  intros Ha Hf Hg. unfold verdicts. cbn [passed js_ge].
  rewrite !andb_true_iff, !bool_decide_eq_true. lia.
Qed.

Lemma passed_is_monotone_witness :
  passed (verdicts (Num 95) (Num 25) (Num 35)) = true.
Proof.
  apply (passed_is_monotone 90 95 20 25 30 35); [lia | lia | lia | reflexivity].
Defined.

Section VerdictMore.
Variable env : Env.

(** X14: user details without a parsable creation date cannot pass.  The age
    is NaN, every comparison with NaN is false, so whatever the friend and
    group counts the embed is red and its first field shows the failed mark
    and [NaN days]. *)
Theorem missing_creation_date_fails (userDetails : Body) (friendsCount groupsCount : Z)
    (w : World) :
  created userDetails = None →
  ∃ embed w',
    run env (present userDetails friendsCount groupsCount) w = Some (Normal embed, w') ∧
    color embed = red ∧
    field_value <$> head (fields embed) = Some "❌ NaN days (min 90)".
Proof.
  intros Hcreated. rewrite present_runs. cbv zeta. rewrite Hcreated.
  eexists _, _. split; [reflexivity|]. split; reflexivity.
Qed.

(** The mark at the head of a criterion field tells whether it was met. *)
Lemma mark_prefix (met : bool) (rest : string) :
  String.prefix "✅" (mark met +:+ rest) = met.
Proof. destruct met; [|reflexivity]. simpl. destruct rest; reflexivity. Qed.

(** X15: the embed is consistent with itself.  It has the four fields Account
    Age, Friends, Groups and Overall Status in this order, none inline; the
    overall field reads PASSED exactly when the colour is green, which is
    exactly when each of the three criterion fields starts with the check
    mark; otherwise the colour is red and the overall field reads FAILED. *)
Theorem createResultsEmbed_is_consistent (username : string)
    (accountAge friendsCount groupsCount : JsNum) (w : World) :
  ∃ embed w' v1 v2 v3 v4,
    run env (createResultsEmbed username accountAge friendsCount groupsCount) w
      = Some (Normal embed, w') ∧
    fields embed =
      [ {| field_name := "Account Age"; field_value := v1; inline := false |};
        {| field_name := "Friends"; field_value := v2; inline := false |};
        {| field_name := "Groups"; field_value := v3; inline := false |};
        {| field_name := "Overall Status"; field_value := v4; inline := false |} ] ∧
    (color embed = green ↔
       String.prefix "✅" v1 = true ∧ String.prefix "✅" v2 = true ∧
       String.prefix "✅" v3 = true) ∧
    (color embed = green ∧ v4 = "🟢 PASSED" ∨ color embed = red ∧ v4 = "🔴 FAILED").
Proof.
  eexists _, _, _, _, _, _. split; [reflexivity|]. split; [reflexivity|].
  cbn [color build_embed verdicts passed ageMet friendsMet groupsMet].
  rewrite !mark_prefix.
  destruct (js_ge accountAge minAge), (js_ge friendsCount minFriends),
           (js_ge groupsCount minGroups); simpl;
    (split; [split; [intros H; first [discriminate H | auto]
                    | intros (H1 & H2 & H3);
                      first [reflexivity | discriminate H1 | discriminate H2
                            | discriminate H3]]
            | auto]).
Qed.

End VerdictMore.

Lemma missing_creation_date_fails_witness :
  ∃ embed w',
    run always_429 (present (body (ok_list [])) 1000 1000) fresh
      = Some (Normal embed, w') ∧
    color embed = red ∧
    field_value <$> head (fields embed) = Some "❌ NaN days (min 90)".
Proof.
  apply (missing_creation_date_fails always_429 (body (ok_list [])) 1000 1000 fresh).
  reflexivity.
Defined.

(** ** The states of a metric fetch *)

Section FetchStates.
Variable env : Env.
Context {A : Type}.
Variable url : string.
Variable read : Response → prog A.
Variable outcome : Response → completion A.
Hypothesis read_is_pure : ∀ res w, advance env (read res) w = (Settled (outcome res), w).

Lemma advance_fetch_exhausted (w : World) :
  advance env (fetch_with url read 0) w =
  (Settled (Abrupt (RetriesExhaustedError default_retries url)), w).
Proof. reflexivity. Qed.

Lemma advance_fetch_hit (n : nat) (w : World) (res : Response) :
  cache w !! url = Some res →
  advance env (fetch_with url read (S n)) w = (Settled (outcome res), w).
Proof.
  intros Hhit. unfold fetch_with. simpl. rewrite Hhit. simpl. apply read_is_pure.
Qed.

Lemma advance_fetch_miss (n : nat) (w : World) :
  cache w !! url = None →
  advance env (fetch_with url read (S n)) w =
  (AwaitingReply (Get url) (fetch_on_reply url read n), record (Called (Get url)) w).
Proof.
  intros Hmiss. unfold fetch_with. simpl. rewrite Hmiss. reflexivity.
Qed.

Lemma advance_reply_fulfilled (n : nat) (w : World) (res : Response) :
  advance env (fetch_on_reply url read n (Fulfilled res)) w =
  (Settled (outcome res), cache_set url res w).
Proof. unfold fetch_on_reply. simpl. apply read_is_pure. Qed.

Lemma advance_reply_rate_limited (n : nat) (w : World) (err : JsError) :
  is_rate_limited err = true →
  advance env (fetch_on_reply url read n (Rejected err)) w =
  (AwaitingTimer (fetch_with url read n), record (Slept default_delay) w).
Proof. intros Hlim. unfold fetch_on_reply. simpl. rewrite Hlim. reflexivity. Qed.

Lemma advance_reply_failed (n : nat) (w : World) (err : JsError) :
  is_rate_limited err = false →
  advance env (fetch_on_reply url read n (Rejected err)) w = (Settled (Abrupt err), w).
Proof. intros Hother. unfold fetch_on_reply. simpl. rewrite Hother. reflexivity. Qed.

End FetchStates.

(** ** What a step may change *)

Lemma calls_of_app (req : Request) (h1 h2 : list Event) :
  calls_of req (h1 ++ h2) = (calls_of req h1 + calls_of req h2)%nat.
Proof. unfold calls_of. rewrite filter_app, length_app. reflexivity. Qed.

Lemma calls_of_called (req req' : Request) :
  calls_of req [Called req'] = if decide (req' = req) then 1%nat else 0%nat.
Proof.
  unfold calls_of. rewrite filter_cons, filter_nil.
  destruct (decide (req' = req)) as [->|Hne].
  - rewrite decide_True by reflexivity. reflexivity.
  - rewrite decide_False by congruence. reflexivity.
Qed.

Lemma calls_of_slept (req : Request) (ms : Z) : calls_of req [Slept ms] = 0%nat.
Proof. reflexivity. Qed.

Lemma calls_of_clock (req : Request) (t : Z) : calls_of req [ClockRead t] = 0%nat.
Proof. reflexivity. Qed.

Lemma only_touches_refl (urls : list string) (w : World) : only_touches urls w w.
Proof.
  split; [|split; [|split]]; auto. exists []. rewrite app_nil_r. reflexivity.
Qed.

Lemma only_touches_trans (urls : list string) (w1 w2 w3 : World) :
  only_touches urls w1 w2 → only_touches urls w2 w3 → only_touches urls w1 w3.
Proof.
  intros (F1 & M1 & (s1 & H1) & C1) (F2 & M2 & (s2 & H2) & C2).
  split; [|split; [|split]].
  - intros key Hkey. rewrite F2, F1 by assumption. reflexivity.
  - intros key res Hres. apply M2, M1, Hres.
  - exists (s1 ++ s2). rewrite H2, H1, app_assoc. reflexivity.
  - intros u Hu. rewrite C2, C1 by assumption. reflexivity.
Qed.

Lemma only_touches_weaken (urls urls' : list string) (w w' : World) :
  urls ⊆ urls' → only_touches urls w w' → only_touches urls' w w'.
Proof.
  intros Hsub (F & M & H & C). split; [|split; [|split]].
  - intros key Hkey. apply F. intros Hin. apply Hkey, Hsub, Hin.
  - exact M.
  - exact H.
  - intros u Hu. apply C. intros Hin. apply Hu, Hsub, Hin.
Qed.

Lemma only_touches_called (url : string) (w : World) :
  only_touches [url] w (record (Called (Get url)) w).
Proof.
  split; [|split; [|split]].
  - reflexivity.
  - auto.
  - exists [Called (Get url)]. reflexivity.
  - intros u Hu. simpl. rewrite calls_of_app, calls_of_called.
    rewrite decide_False; [lia|]. intros [= ->]. apply Hu. left.
Qed.

Lemma only_touches_posted (url : string) (names : list string) (w : World) :
  only_touches [] w (record (Called (Post url names)) w).
Proof.
  split; [|split; [|split]].
  - reflexivity.
  - auto.
  - exists [Called (Post url names)]. reflexivity.
  - intros u Hu. simpl. rewrite calls_of_app, calls_of_called.
    rewrite decide_False; [lia|]. discriminate.
Qed.

Lemma only_touches_slept (ms : Z) (w : World) :
  only_touches [] w (record (Slept ms) w).
Proof.
  split; [|split; [|split]].
  - reflexivity.
  - auto.
  - exists [Slept ms]. reflexivity.
  - intros u Hu. simpl. rewrite calls_of_app, calls_of_slept. lia.
Qed.

Lemma only_touches_clock (t : Z) (w : World) :
  only_touches [] w (record (ClockRead t) w).
Proof.
  split; [|split; [|split]].
  - reflexivity.
  - auto.
  - exists [ClockRead t]. reflexivity.
  - intros u Hu. simpl. rewrite calls_of_app, calls_of_clock. lia.
Qed.

Lemma only_touches_stored (url : string) (res : Response) (w : World) :
  cache w !! url = None → only_touches [url] w (cache_set url res w).
Proof.
  intros Hmiss. split; [|split; [|split]]; simpl.
  - intros key Hkey. apply lookup_insert_ne. intros ->. apply Hkey. left.
  - intros key res' Hres. rewrite lookup_insert_ne; [exact Hres|]. congruence.
  - exists []. rewrite app_nil_r. reflexivity.
  - reflexivity.
Qed.

(** ** The invariant of a metric fetch *)

Section FetchInvariant.
Variable env : Env.
Context {A : Type}.
Variable url : string.
Variable read : Response → prog A.
Variable outcome : Response → completion A.
Hypothesis read_is_pure : ∀ res w, advance env (read res) w = (Settled (outcome res), w).

Lemma fetch_inv_settled (cap : nat) (res : Response) (w : World) :
  cache w !! url = Some res →
  (calls_of (Get url) (history w) ≤ cap)%nat →
  fetch_inv url read outcome cap (Settled (outcome res)) w.
Proof.
  intros Hres Hcap. unfold fetch_inv. destruct (outcome res) as [v|err] eqn:Ho.
  - split; [exact Hcap|]. exists res. auto.
  - exact Hcap.
Qed.

Lemma advance_fetch_inv (n cap : nat) (w : World) :
  (calls_of (Get url) (history w) + n ≤ cap)%nat →
  fetch_inv url read outcome cap (advance env (fetch_with url read n) w).1
            (advance env (fetch_with url read n) w).2 ∧
  only_touches [url] w (advance env (fetch_with url read n) w).2.
Proof.
  intros Hcap. destruct n as [|n].
  - rewrite advance_fetch_exhausted. cbn [fst snd fetch_inv].
    split; [lia|apply only_touches_refl].
  - destruct (cache w !! url) as [res|] eqn:Hc.
    + rewrite (advance_fetch_hit env url read outcome read_is_pure n w res Hc).
      cbn [fst snd].
      split; [|apply only_touches_refl]. apply fetch_inv_settled; [exact Hc|lia].
    + rewrite (advance_fetch_miss env url read n w Hc). cbn [fst snd fetch_inv].
      split; [|apply only_touches_called].
      exists n. split; [reflexivity|]. split; [reflexivity|]. split; [exact Hc|].
      cbn [record history].
      rewrite calls_of_app, calls_of_called, decide_True by reflexivity. lia.
Qed.

(** A turn keeps the invariant, and changes the world at [url] only. *)
Lemma resume_fetch_inv (cap : nat) (s : taskstate A) (w : World) :
  fetch_inv url read outcome cap s w →
  fetch_inv url read outcome cap (resume env s w).1 (resume env s w).2 ∧
  only_touches [url] w (resume env s w).2.
Proof.
  destruct s as [c|req k|k|]; cbn [resume fetch_inv].
  - intros H. split; [exact H|apply only_touches_refl].
  - intros (n & -> & -> & Hmiss & Hcap).
    destruct (upstream env (history w) (Get url)) as [res|err].
    + rewrite (advance_reply_fulfilled env url read outcome read_is_pure).
      cbn [fst snd].
      split; [|apply only_touches_stored, Hmiss].
      apply fetch_inv_settled; [apply lookup_insert_eq|cbn [cache_set history]; lia].
    + destruct (is_rate_limited err) eqn:Hlim.
      * rewrite (advance_reply_rate_limited env url read n w err Hlim).
        cbn [fst snd fetch_inv].
        split.
        -- exists n. split; [reflexivity|]. split; [exact Hmiss|].
           cbn [record history]. rewrite calls_of_app, calls_of_slept. lia.
        -- apply (only_touches_weaken []); [intros x Hx; inversion Hx|].
           apply only_touches_slept.
      * rewrite (advance_reply_failed env url read n w err Hlim).
        cbn [fst snd fetch_inv].
        split; [lia|apply only_touches_refl].
  - intros (n & -> & Hmiss & Hcap). apply advance_fetch_inv, Hcap.
  - intros [].
Qed.

(** A change of the world at other URLs does not disturb it. *)
Lemma fetch_inv_other (cap : nat) (s : taskstate A) (w w' : World) (urls : list string) :
  url ∉ urls → only_touches urls w w' →
  fetch_inv url read outcome cap s w → fetch_inv url read outcome cap s w'.
Proof.
  intros Hne (F & M & _ & C).
  specialize (F url Hne). specialize (C url Hne).
  destruct s as [[v|err]|req k|k|]; simpl; rewrite ?F, ?C; auto.
Qed.

End FetchInvariant.

(** ** The invariant of the fan-out *)

Lemma user_url_not_friends (a b : Z) : user_url a ≠ friends_url b.
Proof. unfold user_url, friends_url. intros H. simpl in H. discriminate H. Qed.

Lemma user_url_not_groups (a b : Z) : user_url a ≠ groups_url b.
Proof. unfold user_url, groups_url. intros H. simpl in H. discriminate H. Qed.

Lemma friends_url_not_groups (a b : Z) : friends_url a ≠ groups_url b.
Proof. unfold friends_url, groups_url. intros H. simpl in H. discriminate H. Qed.

Lemma not_in_one (x y : string) : x ≠ y → x ∉ [y].
Proof. intros Hne Hin. apply list_elem_of_singleton in Hin. contradiction. Qed.

Lemma one_in_metric_urls (userId : Z) (u : string) :
  u = user_url userId ∨ u = friends_url userId ∨ u = groups_url userId →
  [u] ⊆ metric_urls userId.
Proof.
  intros H x Hx. apply list_elem_of_singleton in Hx. subst x. unfold metric_urls.
  destruct H as [-> | [-> | ->]]; [left | right; left | right; right; left].
Qed.

Section FanOutInvariant.
Variable env : Env.
Variable userId : Z.

Lemma read_details_pure (res : Response) (w : World) :
  advance env (Ret (body res)) w = (Settled (read_details res), w).
Proof. reflexivity. Qed.

Lemma read_count_pure (res : Response) (w : World) :
  advance env (data_length res) w = (Settled (read_count res), w).
Proof. unfold data_length, read_count. destruct (data (body res)); reflexivity. Qed.

Lemma resume_task_inv (cap1 cap2 cap3 : nat) (t : Task) (st : FanOut Body Z Z)
    (w : World) :
  fan_inv userId cap1 cap2 cap3 st w →
  fan_inv userId cap1 cap2 cap3 (resume_task env t st w).1 (resume_task env t st w).2 ∧
  only_touches (metric_urls userId) w (resume_task env t st w).2.
Proof.
  intros (I1 & I2 & I3). destruct t; unfold resume_task.
  - destruct (resume_fetch_inv env _ _ _ read_details_pure cap1 _ w I1) as (I1' & T).
    destruct (resume env (first st) w) as [s w']. cbn [fst snd] in *.
    split; [|eapply only_touches_weaken; [|exact T]; apply one_in_metric_urls; auto].
    split; [exact I1'|]. cbn [first second third]. split.
    + eapply fetch_inv_other; [|exact T|exact I2].
      apply not_in_one. intros H. symmetry in H. exact (user_url_not_friends _ _ H).
    + eapply fetch_inv_other; [|exact T|exact I3].
      apply not_in_one. intros H. symmetry in H. exact (user_url_not_groups _ _ H).
  - destruct (resume_fetch_inv env _ _ _ read_count_pure cap2 _ w I2) as (I2' & T).
    destruct (resume env (second st) w) as [s w']. cbn [fst snd] in *.
    split; [|eapply only_touches_weaken; [|exact T]; apply one_in_metric_urls; auto].
    cbn [first second third]. split; [|split; [exact I2'|]].
    + eapply fetch_inv_other; [|exact T|exact I1].
      apply not_in_one, user_url_not_friends.
    + eapply fetch_inv_other; [|exact T|exact I3].
      apply not_in_one. intros H. symmetry in H. exact (friends_url_not_groups _ _ H).
  - destruct (resume_fetch_inv env _ _ _ read_count_pure cap3 _ w I3) as (I3' & T).
    destruct (resume env (third st) w) as [s w']. cbn [fst snd] in *.
    split; [|eapply only_touches_weaken; [|exact T]; apply one_in_metric_urls; auto].
    cbn [first second third]. split; [|split; [|exact I3']].
    + eapply fetch_inv_other; [|exact T|exact I1].
      apply not_in_one, user_url_not_groups.
    + eapply fetch_inv_other; [|exact T|exact I2].
      apply not_in_one, friends_url_not_groups.
Qed.

Lemma event_loop_inv (cap1 cap2 cap3 : nat) (sched : list Task)
    (st st' : FanOut Body Z Z) (w w' : World) :
  fan_inv userId cap1 cap2 cap3 st w →
  event_loop env sched st w = Some (st', w') →
  fan_inv userId cap1 cap2 cap3 st' w' ∧ only_touches (metric_urls userId) w w'.
Proof.
  revert st w. induction sched as [|t sched IH]; intros st w Hinv; cbn [event_loop].
  - destruct (promise_settled st); [|discriminate].
    intros [= <- <-]. split; [exact Hinv|apply only_touches_refl].
  - destruct (promise_settled st).
    + intros [= <- <-]. split; [exact Hinv|apply only_touches_refl].
    + destruct (resume_task_inv cap1 cap2 cap3 t st w Hinv) as (Hinv1 & T1).
      destruct (resume_task env t st w) as [st1 w1]. cbn [fst snd] in *.
      intros Hloop. destruct (IH st1 w1 Hinv1 Hloop) as (Hinv' & T').
      split; [exact Hinv'|]. eapply only_touches_trans; eassumption.
Qed.

Lemma start_all_inv (w : World) :
  let started :=
    start_all env (getUserDetails userId) (getFriendsCount userId)
              (getGroupsCount userId) w in
  fan_inv userId (calls_of (Get (user_url userId)) (history w) + 3)
          (calls_of (Get (friends_url userId)) (history w) + 3)
          (calls_of (Get (groups_url userId)) (history w) + 3)
          started.1 started.2 ∧
  only_touches (metric_urls userId) w started.2.
Proof.
  cbv zeta. unfold start_all.
  change (getUserDetails userId)
    with (fetch_with (user_url userId) (λ res, Ret (body res)) 3).
  change (getFriendsCount userId) with (fetch_with (friends_url userId) data_length 3).
  change (getGroupsCount userId) with (fetch_with (groups_url userId) data_length 3).
  destruct (advance_fetch_inv env (user_url userId) _ _ read_details_pure 3
              (calls_of (Get (user_url userId)) (history w) + 3) w ltac:(lia))
    as (I1 & T1).
  destruct (advance env (fetch_with (user_url userId) _ 3) w) as [s1 w1].
  cbn [fst snd] in *.
  assert (C2 : calls_of (Get (friends_url userId)) (history w1)
               = calls_of (Get (friends_url userId)) (history w)).
  { apply T1. apply not_in_one. intros H. symmetry in H.
    exact (user_url_not_friends _ _ H). }
  destruct (advance_fetch_inv env (friends_url userId) _ _ read_count_pure 3
              (calls_of (Get (friends_url userId)) (history w) + 3) w1 ltac:(lia))
    as (I2 & T2).
  destruct (advance env (fetch_with (friends_url userId) _ 3) w1) as [s2 w2].
  cbn [fst snd] in *.
  assert (C3 : calls_of (Get (groups_url userId)) (history w2)
               = calls_of (Get (groups_url userId)) (history w)).
  { destruct T1 as (_ & _ & _ & C1), T2 as (_ & _ & _ & C2').
    rewrite C2', C1; [reflexivity| |].
    - apply not_in_one. intros H. symmetry in H. exact (user_url_not_groups _ _ H).
    - apply not_in_one. intros H. symmetry in H. exact (friends_url_not_groups _ _ H). }
  destruct (advance_fetch_inv env (groups_url userId) _ _ read_count_pure 3
              (calls_of (Get (groups_url userId)) (history w) + 3) w2 ltac:(lia))
    as (I3 & T3).
  destruct (advance env (fetch_with (groups_url userId) _ 3) w2) as [s3 w3].
  cbn [fst snd first second third] in *.
  split.
  - split; [|split; [|exact I3]].
    + eapply fetch_inv_other; [|exact T3|].
      * apply not_in_one, user_url_not_groups.
      * eapply fetch_inv_other; [|exact T2|exact I1].
        apply not_in_one, user_url_not_friends.
    + eapply fetch_inv_other; [|exact T3|exact I2].
      apply not_in_one, friends_url_not_groups.
  - eapply only_touches_trans; [|eapply only_touches_trans].
    + eapply only_touches_weaken; [|exact T1]. apply one_in_metric_urls; auto.
    + eapply only_touches_weaken; [|exact T2]. apply one_in_metric_urls; auto.
    + eapply only_touches_weaken; [|exact T3]. apply one_in_metric_urls; auto.
Qed.

(** The invariant holds when the fan-out settles, under any schedule and
    against any service. *)
Lemma fan_out_inv (sched : list Task) (w : World) (st : FanOut Body Z Z) (w' : World) :
  fan_out env userId sched w = Some (st, w') →
  fan_inv userId (calls_of (Get (user_url userId)) (history w) + 3)
          (calls_of (Get (friends_url userId)) (history w) + 3)
          (calls_of (Get (groups_url userId)) (history w) + 3) st w' ∧
  only_touches (metric_urls userId) w w'.
Proof.
  unfold fan_out, promise_all. pose proof (start_all_inv w) as Hstart. cbv zeta in Hstart.
  destruct (start_all env _ _ _ w) as [st0 w0]. cbn [fst snd] in Hstart.
  destruct Hstart as (Hinv & T0). intros Hloop.
  destruct (event_loop_inv _ _ _ sched st0 st w0 w' Hinv Hloop) as (Hinv' & T).
  split; [exact Hinv'|]. eapply only_touches_trans; eassumption.
Qed.

End FanOutInvariant.

(** ** The handler, under any service and any schedule *)

Section HandlerMore.
Variable env : Env.

Lemma getUserId_touches_nothing (fuel : nat) (username : string) (w : World)
    (c : completion Z) (w' : World) :
  run env (getUserId fuel username) w = Some (c, w') → only_touches [] w w'.
Proof.
  revert w. induction fuel as [|fuel IH]; intros w; [discriminate|].
  rewrite getUserId_unfold. cbv zeta. unfold lookup_request.
  destruct (upstream env _ _) as [res|err].
  - destruct (data (body res)) as [[|id rest]|]; intros [= <- <-];
      apply only_touches_posted.
  - destruct (is_rate_limited err).
    + intros Hrun. eapply only_touches_trans; [apply only_touches_posted|].
      eapply only_touches_trans; [apply only_touches_slept|]. apply IH, Hrun.
    + intros [= <- <-]. apply only_touches_posted.
Qed.

Lemma present_touches_nothing (userDetails : Body) (friendsCount groupsCount : Z)
    (w : World) (c : completion Embed) (w' : World) :
  run env (present userDetails friendsCount groupsCount) w = Some (c, w') →
  only_touches [] w w'.
Proof.
  rewrite present_runs. cbv zeta. intros [= <- <-].
  eapply only_touches_trans; apply only_touches_clock.
Qed.

Lemma nothing_is_in_metric_urls (userId : Z) : [] ⊆ metric_urls userId.
Proof. intros x Hx. inversion Hx. Qed.

End HandlerMore.

Section HandlerTheorems.
Variable env : Env.

Lemma interactionCreate_inv (fuel : nat) (sched : list Task) (i : Interaction)
    (w : World) (r : option BotReply) (w' : World) :
  interactionCreate env fuel sched i w = Some (r, w') →
  (r = None ∧ w' = w) ∨
  (∃ c, background_check env fuel sched (username_option i) w = Some (c, w')).
Proof.
  unfold interactionCreate.
  destruct (negb (isChatInputCommand i)); [intros [= <- <-]; auto|].
  destruct (negb (bool_decide (commandName i = "bgc"))); [intros [= <- <-]; auto|].
  destruct (background_check env fuel sched (username_option i) w) as [[[e|err] w2]|];
    [| |discriminate]; intros [= <- <-]; right; eauto.
Qed.

Lemma interactionCreate_ignored (fuel : nat) (sched : list Task) (i : Interaction)
    (w w' : World) :
  interactionCreate env fuel sched i w = Some (None, w') → w' = w.
Proof.
  unfold interactionCreate.
  destruct (negb (isChatInputCommand i)); [intros [= <-]; reflexivity|].
  destruct (negb (bool_decide (commandName i = "bgc"))); [intros [= <-]; reflexivity|].
  destruct (background_check env fuel sched (username_option i) w) as [[[e|e] w2]|];
    discriminate.
Qed.

(** The calls left running keep their invariant, and touch the three keys
    only, however many turns they are given. *)
Lemma run_on_inv (userId : Z) (cap1 cap2 cap3 : nat) (later : list Task)
    (st : FanOut Body Z Z) (w : World) :
  fan_inv userId cap1 cap2 cap3 st w →
  fan_inv userId cap1 cap2 cap3 (run_on env later st w).1 (run_on env later st w).2 ∧
  only_touches (metric_urls userId) w (run_on env later st w).2.
Proof.
  revert st w. induction later as [|t later IH]; intros st w Hinv; cbn [run_on].
  - split; [exact Hinv|apply only_touches_refl].
  - destruct (resume_task_inv env userId cap1 cap2 cap3 t st w Hinv) as (Hinv1 & T1).
    destruct (resume_task env t st w) as [st1 w1]. cbn [fst snd] in *.
    destruct (IH st1 w1 Hinv1) as (Hinv' & T').
    split; [exact Hinv'|]. eapply only_touches_trans; eassumption.
Qed.

Lemma fan_inv_calls (userId : Z) (cap1 cap2 cap3 : nat) (st : FanOut Body Z Z)
    (w : World) :
  fan_inv userId cap1 cap2 cap3 st w →
  (calls_of (Get (user_url userId)) (history w) ≤ cap1)%nat ∧
  (calls_of (Get (friends_url userId)) (history w) ≤ cap2)%nat ∧
  (calls_of (Get (groups_url userId)) (history w) ≤ cap3)%nat.
Proof.
  assert (Hle : ∀ (A : Type) url (read : Response → prog A) outcome cap
                  (s : taskstate A),
            fetch_inv url read outcome cap s w →
            (calls_of (Get url) (history w) ≤ cap)%nat).
  { intros A url read outcome cap [[v|e]|req k|k|]; simpl.
    - intros [H _]. exact H.
    - auto.
    - intros (n & _ & _ & _ & H). lia.
    - intros (n & _ & _ & H). lia.
    - intros []. }
  intros (I1 & I2 & I3).
  split; [|split]; eapply Hle; eassumption.
Qed.

Lemma fan_inv_quiet (userId : Z) (cap1 cap2 cap3 : nat) (st : FanOut Body Z Z)
    (w w' : World) :
  only_touches [] w w' →
  fan_inv userId cap1 cap2 cap3 st w → fan_inv userId cap1 cap2 cap3 st w'.
Proof.
  intros T (I1 & I2 & I3).
  split; [|split]; (eapply fetch_inv_other; [|exact T|eassumption]);
    intros Hin; inversion Hin.
Qed.

(** The whole interaction, the calls left running included: what it touched,
    and the bound on the requests of each fetch. *)
Lemma aftermath_touches (fuel : nat) (sched later : list Task) (i : Interaction)
    (w : World) (c : completion Z) (w1 : World) (r : option BotReply) (w' : World) :
  run env (getUserId fuel (username_option i)) w = Some (c, w1) →
  aftermath env fuel sched later i w = Some (r, w') →
  match c with
  | Abrupt _ => only_touches [] w w'
  | Normal userId =>
      only_touches (metric_urls userId) w w' ∧
      ∀ u, u ∈ metric_urls userId →
           (calls_of (Get u) (history w') ≤ calls_of (Get u) (history w) + 3)%nat
  end.
Proof.
  intros Hlookup. unfold aftermath.
  destruct (interactionCreate env fuel sched i w) as [[[reply|] w2]|] eqn:Hreply;
    [| |discriminate].
  2:{ intros [= <- <-]. rewrite (interactionCreate_ignored _ _ _ _ _ Hreply).
      destruct c as [userId|err]; [|apply only_touches_refl].
      split; [apply only_touches_refl|]. intros u _. lia. }
  destruct (interactionCreate_inv _ _ _ _ _ _ Hreply) as [[? _]|[c' Hcheck]];
    [discriminate|].
  unfold left_running. unfold background_check in Hcheck. rewrite Hlookup in *.
  pose proof (getUserId_touches_nothing env _ _ _ _ _ Hlookup) as T0.
  destruct c as [userId|err].
  2:{ injection Hcheck as <- <-. intros [= <- <-]. exact T0. }
  destruct (fan_out env userId sched w1) as [[st w3]|] eqn:Hfan; [|discriminate].
  destruct (fan_out_inv env userId sched w1 st w3 Hfan) as (Hinv & T1).
  assert (Hinv2 : fan_inv userId (calls_of (Get (user_url userId)) (history w1) + 3)
                    (calls_of (Get (friends_url userId)) (history w1) + 3)
                    (calls_of (Get (groups_url userId)) (history w1) + 3) st w2
                  ∧ only_touches (metric_urls userId) w1 w2).
  { destruct (promise_settled st) as [[[[d f] g]|err]|]; [| |discriminate].
    - pose proof (present_touches_nothing env _ _ _ _ _ _ Hcheck) as T3.
      split; [eapply fan_inv_quiet; eassumption|].
      eapply only_touches_trans; [exact T1|].
      eapply only_touches_weaken; [apply nothing_is_in_metric_urls|exact T3].
    - injection Hcheck as <- <-. split; assumption. }
  destruct Hinv2 as (Hinv2 & T2).
  destruct (run_on_inv userId _ _ _ later st w2 Hinv2) as (Hinv3 & T3).
  intros [= <- <-].
  assert (T : only_touches (metric_urls userId) w (run_on env later st w2).2).
  { eapply only_touches_trans;
      [eapply only_touches_weaken; [apply nothing_is_in_metric_urls|exact T0]|].
    eapply only_touches_trans; eassumption. }
  split; [exact T|].
  destruct T0 as (_ & _ & _ & C0).
  destruct (fan_inv_calls _ _ _ _ _ _ Hinv3) as (B1 & B2 & B3).
  intros u Hu. unfold metric_urls in Hu.
  rewrite <- (C0 u) by (intros Hin; inversion Hin).
  apply elem_of_cons in Hu as [->|Hu]; [exact B1|].
  apply elem_of_cons in Hu as [->|Hu]; [exact B2|].
  apply list_elem_of_singleton in Hu as ->. exact B3.
Qed.

(** X16: one interaction, the calls it leaves in flight included, changes the
    cache at the three keys of the resolved user at most, and never drops or
    replaces an entry the cache already held, whatever the service answers, in
    whatever order the replies arrive, and however long the calls left in
    flight at a rejection go on after the reply.  When the lookup fails the
    cache is not changed at all. *)
Theorem aftermath_touches_only_its_keys (fuel : nat) (sched later : list Task)
    (i : Interaction) (w : World) (c : completion Z) (w1 : World)
    (r : option BotReply) (w' : World) :
  run env (getUserId fuel (username_option i)) w = Some (c, w1) →
  aftermath env fuel sched later i w = Some (r, w') →
  (∀ key res, cache w !! key = Some res → cache w' !! key = Some res) ∧
  (∀ key,
     match c with
     | Normal userId => key ∉ metric_urls userId
     | Abrupt _ => True
     end → cache w' !! key = cache w !! key).
Proof.
  intros Hlookup Hend.
  pose proof (aftermath_touches _ _ _ _ _ _ _ _ _ Hlookup Hend) as H.
  destruct c as [userId|err].
  - destruct H as ((F & M & _) & _). auto.
  - destruct H as (F & M & _). split; [exact M|].
    intros key _. apply F. intros Hin. inversion Hin.
Qed.

(** X17: one interaction, the calls it leaves in flight included, sends at
    most three GET requests to any one URL (so nine at most, three to each of
    the URLs of the resolved user), and no GET request to a URL that is not
    one of those three; when the lookup fails it sends none.  The count is
    taken after the calls left in flight at a rejection have been given any
    number of further turns. *)
Theorem aftermath_request_bound (fuel : nat) (sched later : list Task)
    (i : Interaction) (w : World) (c : completion Z) (w1 : World)
    (r : option BotReply) (w' : World) (u v : string) :
  run env (getUserId fuel (username_option i)) w = Some (c, w1) →
  aftermath env fuel sched later i w = Some (r, w') →
  match c with
  | Normal userId => v ∉ metric_urls userId
  | Abrupt _ => True
  end →
  (calls_of (Get u) (history w') ≤ calls_of (Get u) (history w) + 3)%nat ∧
  calls_of (Get v) (history w') = calls_of (Get v) (history w).
Proof.
  intros Hlookup Hend Hv.
  pose proof (aftermath_touches _ _ _ _ _ _ _ _ _ Hlookup Hend) as H.
  destruct c as [userId|err].
  - destruct H as ((_ & _ & _ & C) & Hbound).
    split; [|apply C, Hv].
    destruct (decide (u ∈ metric_urls userId)) as [Hin|Hout]; [apply Hbound, Hin|].
    rewrite (C u Hout). lia.
  - destruct H as (_ & _ & _ & C).
    split; [|apply C; intros Hin; inversion Hin].
    rewrite (C u) by (intros Hin; inversion Hin). lia.
Qed.

End HandlerTheorems.

(** The scenario of the two witnesses below: the details request fails with
    HTTP 500 while the friends and groups requests are in flight.  The reply
    is the error; at that moment each of the two has sent one request and the
    cache holds neither response.  Left running, each is rate-limited, waits,
    asks again, and stores its response after the reply. *)
Example orphaned_calls_go_on_after_the_reply :
  interactionCreate details_down 1 (round_robin 6) bgc_bob ann_cached
    = Some (Some (ReplyContent "Error: Request failed with status code 500"),
            orphans_reply_world) ∧
  cache orphans_reply_world !! friends_url 42 = None ∧
  calls_of (Get (friends_url 42)) (history orphans_reply_world) = 1%nat ∧
  aftermath details_down 1 (round_robin 6) (round_robin 6) bgc_bob ann_cached
    = Some (orphans_reply, orphans_world) ∧
  cache orphans_world !! friends_url 42 = Some (ok_list [7; 8]) ∧
  cache orphans_world !! groups_url 42 = Some (ok_list [7; 8]) ∧
  calls_of (Get (friends_url 42)) (history orphans_world) = 2%nat.
Proof. repeat split; vm_compute; reflexivity. Qed.

Lemma aftermath_touches_only_its_keys_witness :
  (∀ key res, cache ann_cached !! key = Some res →
              cache orphans_world !! key = Some res) ∧
  (∀ key, key ∉ metric_urls 42 → cache orphans_world !! key = cache ann_cached !! key).
Proof.
  apply (aftermath_touches_only_its_keys details_down 1 (round_robin 6) (round_robin 6)
           bgc_bob ann_cached (Normal 42)
           {| cache := cache ann_cached;
              history := history ann_cached ++ [Called (lookup_request "bob")] |}
           orphans_reply orphans_world).
  - vm_compute. reflexivity.
  - vm_compute. reflexivity.
Defined.

Lemma aftermath_request_bound_witness :
  (calls_of (Get (friends_url 42)) (history orphans_world)
   ≤ calls_of (Get (friends_url 42)) (history ann_cached) + 3)%nat ∧
  calls_of (Get (user_url 7)) (history orphans_world)
  = calls_of (Get (user_url 7)) (history ann_cached).
Proof.
  apply (aftermath_request_bound details_down 1 (round_robin 6) (round_robin 6)
           bgc_bob ann_cached (Normal 42)
           {| cache := cache ann_cached;
              history := history ann_cached ++ [Called (lookup_request "bob")] |}
           orphans_reply orphans_world (friends_url 42) (user_url 7)).
  - vm_compute. reflexivity.
  - vm_compute. reflexivity.
  - intros Hin. unfold metric_urls in Hin.
    repeat (apply elem_of_cons in Hin as [Hin|Hin]; [vm_compute in Hin; discriminate Hin|]).
    inversion Hin.
Defined.

(** ** All or nothing *)



Section Trail.
Variable env : Env.
Variable w0 : World.








Context {A : Type}.
Variable url : string.
Variable read : Response → prog A.
Variable outcome : Response → completion A.
Hypothesis read_is_pure : ∀ res w, advance env (read res) w = (Settled (outcome res), w).




End Trail.

Section FanOutTrail.
Variable env : Env.
Variable userId : Z.
Variable w0 : World.



End FanOutTrail.

Section FanOutStart.
Variable env : Env.
Variable userId : Z.



End FanOutStart.



(** The three ways of ending, each on a service that produces it.  With the
    details request failing, the reply is that error although the friends and
    groups requests are still in flight, and the cache holds nothing of the
    user. *)
Example one_failed_call_fails_the_check :
  ∃ w',
    interactionCreate details_down 1 (round_robin 6) bgc_bob fresh
      = Some (Some (ReplyContent "Error: Request failed with status code 500"), w') ∧
    upstream details_down (history w') (Get (user_url 42)) = Rejected ServerError ∧
    cache w' = ∅.
Proof. eexists. split; [vm_compute; reflexivity|]. split; reflexivity. Qed.

(** With a cached friends response that has no array to count, the reply is
    the [TypeError], not an embed with a missing count. *)
Example malformed_count_fails_the_check :
  ∃ w',
    interactionCreate steady_service 1 (round_robin 6) bgc_bob
        {| cache := {[ friends_url 42 := ok_user "Bob" 0 ]}; history := [] |}
      = Some (Some (ReplyContent
                      "Error: Cannot read properties of undefined (reading 'length')"),
              w').
Proof. eexists. vm_compute. reflexivity. Qed.

(** While every lookup is rate-limited the handler does not reply, however
    far the recursion of the resolver is unrolled. *)
Example starved_lookup_never_replies (fuel : nat) (sched : list Task) (w : World) :
  interactionCreate always_429 fuel sched bgc_bob w = None.
Proof.
  unfold interactionCreate, background_check. cbn [bgc_bob isChatInputCommand commandName
    username_option negb].
  rewrite (bool_decide_eq_true_2 ("bgc" = "bgc") eq_refl). cbn [negb].
  rewrite getUserId_never_gives_up; [reflexivity|].
  intros h. exists TooManyRequests. split; reflexivity.
Qed.

(** ** What a check leaves in the cache, and what the next one finds *)

Section WarmCache.
Variable env : Env.

Lemma event_loop_already_settled {A B C : Type} (sched : list Task) (st : FanOut A B C)
    (w : World) :
  is_Some (promise_settled st) → event_loop env sched st w = Some (st, w).
Proof. intros [c Hc]. destruct sched; simpl; rewrite Hc; reflexivity. Qed.

(** With the three responses cached the fan-out settles at once: no request,
    no wait, no turn of the schedule. *)
Lemma fan_out_warm (userId : Z) (sched : list Task) (w : World) (r1 r2 r3 : Response) :
  cache w !! user_url userId = Some r1 →
  cache w !! friends_url userId = Some r2 →
  cache w !! groups_url userId = Some r3 →
  fan_out env userId sched w =
  Some (mkFanOut (Settled (read_details r1)) (Settled (read_count r2))
                 (Settled (read_count r3)), w).
Proof.
  intros H1 H2 H3. unfold fan_out, promise_all, start_all.
  change (getUserDetails userId)
    with (fetch_with (user_url userId) (λ res, Ret (body res)) 3).
  change (getFriendsCount userId) with (fetch_with (friends_url userId) data_length 3).
  change (getGroupsCount userId) with (fetch_with (groups_url userId) data_length 3).
  rewrite (advance_fetch_hit env _ _ read_details (read_details_pure env) 2 w r1 H1).
  rewrite (advance_fetch_hit env _ _ read_count (read_count_pure env) 2 w r2 H2).
  rewrite (advance_fetch_hit env _ _ read_count (read_count_pure env) 2 w r3 H3).
  apply event_loop_already_settled, all_settled_promise_settled; exact I.
Qed.

(** When the fan-out fulfils, each value was read from the response the
    cache now holds under the URL of its fetch. *)
Lemma fulfilled_fan_out (userId : Z) (sched : list Task) (w : World)
    (st : FanOut Body Z Z) (w' : World) (details : Body) (friendsCount groupsCount : Z) :
  fan_out env userId sched w = Some (st, w') →
  promise_settled st = Some (Normal (details, friendsCount, groupsCount)) →
  ∃ r1 r2 r3,
    cache w' !! user_url userId = Some r1 ∧ read_details r1 = Normal details ∧
    cache w' !! friends_url userId = Some r2 ∧ read_count r2 = Normal friendsCount ∧
    cache w' !! groups_url userId = Some r3 ∧ read_count r3 = Normal groupsCount.
Proof.
  intros Hfan Hsettled.
  destruct (fan_out_inv env userId sched w st w' Hfan) as ((I1 & I2 & I3) & _).
  unfold promise_settled in Hsettled.
  destruct (rejection st); [discriminate|].
  destruct (fulfilment st) as [[[d f] g]|] eqn:Hful; [|discriminate].
  injection Hsettled as -> -> ->.
  destruct (fulfilment_inv st _ _ _ Hful) as (E1 & E2 & E3).
  rewrite E1 in I1. rewrite E2 in I2. rewrite E3 in I3.
  destruct I1 as (_ & r1 & C1 & O1), I2 as (_ & r2 & C2 & O2), I3 as (_ & r3 & C3 & O3).
  exists r1, r2, r3. auto 10.
Qed.

(** X18: when the fan-out of the handler fulfils, under whatever schedule and
    after whatever retries, the cache holds a response under each of the three
    URLs, and the three values are the readings of these responses: the
    payload of the first, and the lengths of the [data] arrays of the other
    two. *)
Theorem fulfilled_fan_out_is_cached (userId : Z) (sched : list Task) (w : World)
    (st : FanOut Body Z Z) (w' : World) (details : Body) (friendsCount groupsCount : Z) :
  fan_out env userId sched w = Some (st, w') →
  promise_settled st = Some (Normal (details, friendsCount, groupsCount)) →
  ∃ r1 r2 r3 friends groups,
    cache w' !! user_url userId = Some r1 ∧ body r1 = details ∧
    cache w' !! friends_url userId = Some r2 ∧ data (body r2) = Some friends ∧
    friendsCount = Z.of_nat (length friends) ∧
    cache w' !! groups_url userId = Some r3 ∧ data (body r3) = Some groups ∧
    groupsCount = Z.of_nat (length groups).
Proof.
  intros Hfan Hsettled.
  destruct (fulfilled_fan_out userId sched w st w' _ _ _ Hfan Hsettled)
    as (r1 & r2 & r3 & C1 & O1 & C2 & O2 & C3 & O3).
  unfold read_details in O1. unfold read_count in O2, O3.
  destruct (data (body r2)) as [friends|] eqn:D2; [|discriminate].
  destruct (data (body r3)) as [groups|] eqn:D3; [|discriminate].
  injection O1 as <-. injection O2 as <-. injection O3 as <-.
  exists r1, r2, r3, friends, groups. auto 10.
Qed.

(** The handler on a warm cache. *)
Lemma background_check_warm (fuel : nat) (sched : list Task) (username : string)
    (w : World) (userId : Z) (w1 : World) (r1 r2 r3 : Response)
    (friendsCount groupsCount : Z) :
  run env (getUserId fuel username) w = Some (Normal userId, w1) →
  cache w !! user_url userId = Some r1 →
  cache w !! friends_url userId = Some r2 →
  cache w !! groups_url userId = Some r3 →
  read_count r2 = Normal friendsCount →
  read_count r3 = Normal groupsCount →
  background_check env fuel sched username w =
  run env (present (body r1) friendsCount groupsCount) w1.
Proof.
  intros Hlookup H1 H2 H3 O2 O3. unfold background_check. rewrite Hlookup.
  destruct (getUserId_outcome env _ _ _ _ _ Hlookup) as (Hcache & _).
  rewrite (fan_out_warm userId sched w1 r1 r2 r3) by (rewrite Hcache; assumption).
  unfold promise_settled, rejection, fulfilment. cbn [first second third].
  unfold read_details. rewrite O2, O3. reflexivity.
Qed.

(** The reply of the handler on a warm cache. *)
Lemma interactionCreate_warm (fuel : nat) (sched : list Task)
    (i : Interaction) (w : World) (userId : Z) (w1 : World) (r1 r2 r3 : Response)
    (friends groups : list Z) :
  isChatInputCommand i = true →
  commandName i = "bgc" →
  run env (getUserId fuel (username_option i)) w = Some (Normal userId, w1) →
  cache w !! user_url userId = Some r1 →
  cache w !! friends_url userId = Some r2 →
  cache w !! groups_url userId = Some r3 →
  data (body r2) = Some friends →
  data (body r3) = Some groups →
  interactionCreate env fuel sched i w =
  Some (Some (ReplyEmbeds
          [build_embed (js_string (name (body r1)))
             (age_at (clock env (history w1)) (created (body r1)))
             (Num (Z.of_nat (length friends))) (Num (Z.of_nat (length groups)))
             (verdicts (age_at (clock env (history w1)) (created (body r1)))
                       (Num (Z.of_nat (length friends)))
                       (Num (Z.of_nat (length groups))))
             (clock env (history w1 ++ [ClockRead (clock env (history w1))]))]),
        {| cache := cache w;
           history := history w1
                      ++ [ClockRead (clock env (history w1));
                          ClockRead (clock env (history w1
                                       ++ [ClockRead (clock env (history w1))]))] |}).
Proof.
  intros Hchat Hname Hlookup H1 H2 H3 D2 D3. unfold interactionCreate.
  rewrite Hchat, Hname. cbn [negb].
  rewrite (bool_decide_eq_true_2 ("bgc" = "bgc") eq_refl). cbn [negb].
  rewrite (background_check_warm fuel sched _ w userId w1 r1 r2 r3
             (Z.of_nat (length friends)) (Z.of_nat (length groups)))
    by (first [assumption | unfold read_count; rewrite ?D2, ?D3; reflexivity]).
  rewrite present_runs. cbv zeta.
  destruct (getUserId_outcome env _ _ _ _ _ Hlookup) as (Hcache & _).
  unfold record. cbn [cache history]. rewrite Hcache, <- app_assoc. reflexivity.
Qed.

(** X19: a check on a warm cache.  When the cache holds a response for each of
    the three URLs of the resolved user, with a [data] array in the two list
    responses, the handler replies with the embed built from the cached
    values, under any schedule (the schedule is never consulted) and whatever
    the service would answer: after the lookup it sends no request and waits
    for nothing, and the cache stays as it is. *)
Theorem interactionCreate_on_warm_cache (fuel : nat) (sched : list Task)
    (i : Interaction) (w : World) (userId : Z) (w1 : World) (r1 r2 r3 : Response)
    (friends groups : list Z) :
  isChatInputCommand i = true →
  commandName i = "bgc" →
  run env (getUserId fuel (username_option i)) w = Some (Normal userId, w1) →
  cache w !! user_url userId = Some r1 →
  cache w !! friends_url userId = Some r2 →
  cache w !! groups_url userId = Some r3 →
  data (body r2) = Some friends →
  data (body r3) = Some groups →
  interactionCreate env fuel sched i w =
  Some (Some (ReplyEmbeds
          [build_embed (js_string (name (body r1)))
             (age_at (clock env (history w1)) (created (body r1)))
             (Num (Z.of_nat (length friends))) (Num (Z.of_nat (length groups)))
             (verdicts (age_at (clock env (history w1)) (created (body r1)))
                       (Num (Z.of_nat (length friends)))
                       (Num (Z.of_nat (length groups))))
             (clock env (history w1 ++ [ClockRead (clock env (history w1))]))]),
        {| cache := cache w;
           history := history w1
                      ++ [ClockRead (clock env (history w1));
                          ClockRead (clock env (history w1
                                       ++ [ClockRead (clock env (history w1))]))] |}).
Proof. apply interactionCreate_warm. Qed.

End WarmCache.

Lemma fulfilled_fan_out_is_cached_witness :
  ∃ r1 r2 r3 friends groups,
    cache bob_fan_world !! user_url 42 = Some r1 ∧ body r1 = body (ok_user "Bob" 0) ∧
    cache bob_fan_world !! friends_url 42 = Some r2 ∧ data (body r2) = Some friends ∧
    25 = Z.of_nat (length friends) ∧
    cache bob_fan_world !! groups_url 42 = Some r3 ∧ data (body r3) = Some groups ∧
    35 = Z.of_nat (length groups).
Proof.
  apply (fulfilled_fan_out_is_cached sample_service 42 (round_robin 6)
           {| cache := ∅; history := [Called (lookup_request "bob")] |}
           bob_fan bob_fan_world (body (ok_user "Bob" 0)) 25 35).
  - vm_compute. reflexivity.
  - vm_compute. reflexivity.
Defined.

(** X20: a second check of the same user needs the service for the lookup
    only.  After a check that replied with an embed, any later [/bgc] of the
    same name that resolves to the same id replies with an embed again, under
    any schedule and against any service, even one whose metric endpoints are
    down: it sends no GET request and leaves the cache as it is.  The title
    and the friends and groups fields are those of the first embed; only the
    age, read off the clock again, may differ. *)
Theorem second_check_is_served_from_cache (env env2 : Env) (fuel fuel2 : nat)
    (sched sched2 : list Task) (i : Interaction) (w w1 w' w1' : World) (userId : Z)
    (embed : Embed) (u : string) :
  run env (getUserId fuel (username_option i)) w = Some (Normal userId, w1) →
  interactionCreate env fuel sched i w = Some (Some (ReplyEmbeds [embed]), w') →
  run env2 (getUserId fuel2 (username_option i)) w' = Some (Normal userId, w1') →
  ∃ embed2 w'',
    interactionCreate env2 fuel2 sched2 i w' = Some (Some (ReplyEmbeds [embed2]), w'') ∧
    title embed2 = title embed ∧
    fields embed2 !! 1%nat = fields embed !! 1%nat ∧
    fields embed2 !! 2%nat = fields embed !! 2%nat ∧
    cache w'' = cache w' ∧
    calls_of (Get u) (history w'') = calls_of (Get u) (history w').
Proof.
  intros Hlookup Hfirst Hlookup2.
  assert (Hguards : isChatInputCommand i = true ∧ commandName i = "bgc" ∧
                    background_check env fuel sched (username_option i) w
                    = Some (Normal embed, w')).
  { unfold interactionCreate in Hfirst.
    destruct (isChatInputCommand i); [|discriminate Hfirst]. cbn [negb] in Hfirst.
    destruct (bool_decide (commandName i = "bgc")) eqn:Hb; [|discriminate Hfirst].
    cbn [negb] in Hfirst. apply bool_decide_eq_true in Hb.
    destruct (background_check env fuel sched (username_option i) w)
      as [[[e|err] w2]|]; [|discriminate|discriminate].
    injection Hfirst as -> ->. auto. }
  destruct Hguards as (Hchat & Hname & Hcheck).
  unfold background_check in Hcheck. rewrite Hlookup in Hcheck.
  destruct (fan_out env userId sched w1) as [[st w2]|] eqn:Hfan; [|discriminate].
  destruct (promise_settled st) as [[[[d f] g]|err]|] eqn:Hps;
    [|discriminate|discriminate].
  rewrite present_runs in Hcheck. cbv zeta in Hcheck. injection Hcheck as <- <-.
  destruct (fulfilled_fan_out env userId sched w1 st w2 d f g Hfan Hps)
    as (r1 & r2 & r3 & C1 & O1 & C2 & O2 & C3 & O3).
  unfold read_details in O1. injection O1 as <-.
  pose proof O2 as D2. pose proof O3 as D3. unfold read_count in D2, D3.
  destruct (data (body r2)) as [friends|] eqn:E2; [|discriminate].
  destruct (data (body r3)) as [groups|] eqn:E3; [|discriminate].
  injection D2 as <-. injection D3 as <-.
  eexists _, _. split.
  - apply (interactionCreate_warm env2 fuel2 sched2 i _ userId w1' r1 r2 r3
             friends groups); assumption.
  - cbn [title build_embed fields cache record history].
    split; [reflexivity|]. split; [reflexivity|]. split; [reflexivity|].
    split; [reflexivity|].
    destruct (getUserId_touches_nothing env2 _ _ _ _ _ Hlookup2) as (_ & _ & _ & C).
    specialize (C u ltac:(intros Hin; inversion Hin)).
    cbn [record history] in C.
    assert (Hquiet : ∀ a b, calls_of (Get u) [ClockRead a; ClockRead b] = 0%nat)
      by reflexivity.
    rewrite !calls_of_app, ?Hquiet, ?calls_of_clock in *. lia.
Qed.

Lemma interactionCreate_on_warm_cache_witness :
  interactionCreate only_lookup_works 1 [] bgc_bob bob_world =
  Some (Some (ReplyEmbeds
          [build_embed (js_string (name (body (ok_user "Bob" 0))))
             (age_at (clock only_lookup_works
                        (history (record (Called (lookup_request "bob")) bob_world)))
                     (created (body (ok_user "Bob" 0))))
             (Num (Z.of_nat (length (seqZ 1 25)))) (Num (Z.of_nat (length (seqZ 1 35))))
             (verdicts
                (age_at (clock only_lookup_works
                           (history (record (Called (lookup_request "bob")) bob_world)))
                        (created (body (ok_user "Bob" 0))))
                (Num (Z.of_nat (length (seqZ 1 25))))
                (Num (Z.of_nat (length (seqZ 1 35)))))
             (clock only_lookup_works
                (history (record (Called (lookup_request "bob")) bob_world)
                 ++ [ClockRead
                       (clock only_lookup_works
                          (history (record (Called (lookup_request "bob"))
                                           bob_world)))]))]),
        {| cache := cache bob_world;
           history :=
             history (record (Called (lookup_request "bob")) bob_world)
             ++ [ClockRead
                   (clock only_lookup_works
                      (history (record (Called (lookup_request "bob")) bob_world)));
                 ClockRead
                   (clock only_lookup_works
                      (history (record (Called (lookup_request "bob")) bob_world)
                       ++ [ClockRead
                             (clock only_lookup_works
                                (history (record (Called (lookup_request "bob"))
                                                 bob_world)))]))] |}).
Proof.
  apply (interactionCreate_on_warm_cache only_lookup_works 1 [] bgc_bob bob_world 42
           (record (Called (lookup_request "bob")) bob_world)
           (ok_user "Bob" 0) (ok_list (seqZ 1 25)) (ok_list (seqZ 1 35))
           (seqZ 1 25) (seqZ 1 35)).
  - reflexivity.
  - reflexivity.
  - vm_compute. reflexivity.
  - vm_compute. reflexivity.
  - vm_compute. reflexivity.
  - vm_compute. reflexivity.
  - reflexivity.
  - reflexivity.
Defined.

Lemma second_check_is_served_from_cache_witness :
  ∃ embed2 w'',
    interactionCreate only_lookup_works 1 [] bgc_bob bob_world
      = Some (Some (ReplyEmbeds [embed2]), w'') ∧
    title embed2 = title bob_embed ∧
    fields embed2 !! 1%nat = fields bob_embed !! 1%nat ∧
    fields embed2 !! 2%nat = fields bob_embed !! 2%nat ∧
    cache w'' = cache bob_world ∧
    calls_of (Get (user_url 42)) (history w'')
      = calls_of (Get (user_url 42)) (history bob_world).
Proof.
  apply (second_check_is_served_from_cache sample_service only_lookup_works 1 1
           (round_robin 6) [] bgc_bob fresh
           {| cache := ∅; history := [Called (lookup_request "bob")] |}
           bob_world (record (Called (lookup_request "bob")) bob_world) 42
           bob_embed (user_url 42)).
  - reflexivity.
  - vm_compute. reflexivity.
  - vm_compute. reflexivity.
Defined.

(** ** The order of requests and of replies *)

Section Order.
Variable env : Env.

Lemma advance_history {A : Type} (p : prog A) (w : World) :
  ∃ suffix, history (advance env p w).2 = history w ++ suffix.
Proof.
  revert w. induction p as [v|err| |url k IH|url res k IH|req k IH|ms k IH|k IH];
    intros w; simpl; try (exists []; rewrite app_nil_r; reflexivity); auto.
  - destruct (IH (cache_set url res w)) as [suffix H]. exists suffix. exact H.
  - eexists. reflexivity.
  - eexists. reflexivity.
  - destruct (IH (clock env (history w)) (record (ClockRead (clock env (history w))) w))
      as [suffix H].
    exists (ClockRead (clock env (history w)) :: suffix). rewrite H. simpl.
    rewrite <- app_assoc. reflexivity.
Qed.

Lemma resume_history {A : Type} (s : taskstate A) (w : World) :
  ∃ suffix, history (resume env s w).2 = history w ++ suffix.
Proof.
  destruct s as [c|req k|k|]; simpl; try apply advance_history;
    exists []; rewrite app_nil_r; reflexivity.
Qed.

(** The event loop only adds to the history. *)
Lemma event_loop_history {A B C : Type} (sched : list Task) (st st' : FanOut A B C)
    (w w' : World) :
  event_loop env sched st w = Some (st', w') →
  ∃ suffix, history w' = history w ++ suffix.
Proof.
  revert st w. induction sched as [|t sched IH]; intros st w; cbn [event_loop].
  - destruct (promise_settled st); [|discriminate].
    intros [= <- <-]. exists []. rewrite app_nil_r. reflexivity.
  - destruct (promise_settled st).
    + intros [= <- <-]. exists []. rewrite app_nil_r. reflexivity.
    + assert (Hstep : ∃ suffix,
                history (resume_task env t st w).2 = history w ++ suffix).
      { destruct t; unfold resume_task.
        - destruct (resume_history (first st) w) as [x Hx].
          destruct (resume env (first st) w). eauto.
        - destruct (resume_history (second st) w) as [x Hx].
          destruct (resume env (second st) w). eauto.
        - destruct (resume_history (third st) w) as [x Hx].
          destruct (resume env (third st) w). eauto. }
      destruct (resume_task env t st w) as [st1 w1]. destruct Hstep as [x Hx].
      intros Hloop. destruct (IH st1 w1 Hloop) as [y Hy].
      exists (x ++ y). rewrite Hy. cbn [snd] in Hx. rewrite Hx, app_assoc. reflexivity.
Qed.

(** The fan-out on a cold cache starts with the three requests. *)
Lemma start_all_cold (userId : Z) (w : World) :
  cache w !! user_url userId = None →
  cache w !! friends_url userId = None →
  cache w !! groups_url userId = None →
  start_all env (getUserDetails userId) (getFriendsCount userId)
            (getGroupsCount userId) w =
  (mkFanOut
     (AwaitingReply (Get (user_url userId))
        (fetch_on_reply (user_url userId) (λ res, Ret (body res)) 2))
     (AwaitingReply (Get (friends_url userId))
        (fetch_on_reply (friends_url userId) data_length 2))
     (AwaitingReply (Get (groups_url userId))
        (fetch_on_reply (groups_url userId) data_length 2)),
   {| cache := cache w;
      history := history w ++ [Called (Get (user_url userId));
                               Called (Get (friends_url userId));
                               Called (Get (groups_url userId))] |}).
Proof.
  intros H1 H2 H3. unfold start_all.
  change (getUserDetails userId)
    with (fetch_with (user_url userId) (λ res, Ret (body res)) 3).
  change (getFriendsCount userId) with (fetch_with (friends_url userId) data_length 3).
  change (getGroupsCount userId) with (fetch_with (groups_url userId) data_length 3).
  rewrite (advance_fetch_miss env _ _ 2 w H1).
  rewrite (advance_fetch_miss env _ _ 2 _ (H2 : cache (record _ w) !! _ = None)).
  rewrite (advance_fetch_miss env _ _ 2 _
             (H3 : cache (record _ (record _ w)) !! _ = None)).
  unfold record. cbn [cache history]. rewrite <- !app_assoc. reflexivity.
Qed.

(** X21: the fan-out is concurrent.  With none of the three URLs cached, the
    handler sends the three metric requests one after the other, in the order
    details, friends, groups, before it handles any reply or waits for any
    backoff: however the fan-out goes on, its history starts with these three
    requests. *)
Theorem fan_out_requests_in_order (userId : Z) (sched : list Task) (w : World)
    (st : FanOut Body Z Z) (w' : World) :
  cache w !! user_url userId = None →
  cache w !! friends_url userId = None →
  cache w !! groups_url userId = None →
  fan_out env userId sched w = Some (st, w') →
  ∃ rest,
    history w' = history w ++ [Called (Get (user_url userId));
                               Called (Get (friends_url userId));
                               Called (Get (groups_url userId))] ++ rest.
Proof.
  intros H1 H2 H3. unfold fan_out, promise_all.
  rewrite (start_all_cold userId w H1 H2 H3). intros Hloop.
  destruct (event_loop_history _ _ _ _ _ Hloop) as [rest Hrest].
  exists rest. rewrite Hrest. cbn [history]. rewrite <- !app_assoc. reflexivity.
Qed.

End Order.

Lemma fan_out_requests_in_order_witness :
  ∃ rest,
    history bob_fan_world =
    history {| cache := ∅; history := [Called (lookup_request "bob")] |}
    ++ [Called (Get (user_url 42)); Called (Get (friends_url 42));
        Called (Get (groups_url 42))] ++ rest.
Proof.
  apply (fan_out_requests_in_order sample_service 42 (round_robin 6)
           {| cache := ∅; history := [Called (lookup_request "bob")] |}
           bob_fan bob_fan_world).
  - reflexivity.
  - reflexivity.
  - reflexivity.
  - vm_compute. reflexivity.
Defined.

(** ** The order in which replies arrive does not matter *)

Section OrderIndependence.
Variable env : Env.

Lemma fetch_slot_resume {A : Type} (url : string) (read : Response → prog A)
    (outcome : Response → completion A) (res : Response) (s : taskstate A) (w : World) :
  (∀ r w0, advance env (read r) w0 = (Settled (outcome r), w0)) →
  (∀ h, upstream env h (Get url) = Fulfilled res) →
  fetch_slot url read outcome res s w →
  fetch_slot url read outcome res (resume env s w).1 (resume env s w).2 ∧
  history (resume env s w).2 = history w ∧
  (∀ key, key ≠ url → cache (resume env s w).2 !! key = cache w !! key).
Proof.
  intros Hpure Hstable [[-> Hmiss]|[-> Hhit]].
  - cbn [resume]. rewrite Hstable.
    rewrite (advance_reply_fulfilled env url read outcome Hpure). cbn [fst snd].
    split; [|split].
    + right. split; [reflexivity|]. simpl. apply lookup_insert_eq.
    + reflexivity.
    + intros key Hne. simpl. apply lookup_insert_ne. congruence.
  - cbn [resume fst snd]. split; [|split]; auto. right. auto.
Qed.

Lemma fetch_slot_other {A : Type} (url : string) (read : Response → prog A)
    (outcome : Response → completion A) (res : Response) (s : taskstate A)
    (w w' : World) :
  cache w' !! url = cache w !! url →
  fetch_slot url read outcome res s w → fetch_slot url read outcome res s w'.
Proof. intros Heq [[-> H]|[-> H]]; [left|right]; rewrite Heq; auto. Qed.

Variable userId : Z.
Variables r1 r2 r3 : Response.
Hypothesis details_served : ∀ h, upstream env h (Get (user_url userId)) = Fulfilled r1.
Hypothesis friends_served : ∀ h, upstream env h (Get (friends_url userId)) = Fulfilled r2.
Hypothesis groups_served : ∀ h, upstream env h (Get (groups_url userId)) = Fulfilled r3.

Lemma slots_resume_task (w0 : World) (t : Task) (st : FanOut Body Z Z) (w : World) :
  slots userId r1 r2 r3 w0 st w →
  slots userId r1 r2 r3 w0 (resume_task env t st w).1 (resume_task env t st w).2.
Proof.
  intros (S1 & S2 & S3 & Hh & Hf). destruct t; unfold resume_task.
  - destruct (fetch_slot_resume _ _ _ r1 _ w (read_details_pure env) details_served S1)
      as (S1' & Hh' & Hf').
    destruct (resume env (first st) w) as [s w']. cbn [fst snd first second third] in *.
    split; [exact S1'|]. split; [|split; [|split]].
    + eapply fetch_slot_other; [|exact S2]. apply Hf'.
      intros H. symmetry in H. exact (user_url_not_friends _ _ H).
    + eapply fetch_slot_other; [|exact S3]. apply Hf'.
      intros H. symmetry in H. exact (user_url_not_groups _ _ H).
    + congruence.
    + intros key Hkey. rewrite Hf'; [apply Hf, Hkey|].
      intros ->. apply Hkey. left.
  - destruct (fetch_slot_resume _ _ _ r2 _ w (read_count_pure env) friends_served S2)
      as (S2' & Hh' & Hf').
    destruct (resume env (second st) w) as [s w']. cbn [fst snd first second third] in *.
    split; [|split; [exact S2'|split; [|split]]].
    + eapply fetch_slot_other; [|exact S1]. apply Hf', user_url_not_friends.
    + eapply fetch_slot_other; [|exact S3]. apply Hf'.
      intros H. symmetry in H. exact (friends_url_not_groups _ _ H).
    + congruence.
    + intros key Hkey. rewrite Hf'; [apply Hf, Hkey|].
      intros ->. apply Hkey. right; left.
  - destruct (fetch_slot_resume _ _ _ r3 _ w (read_count_pure env) groups_served S3)
      as (S3' & Hh' & Hf').
    destruct (resume env (third st) w) as [s w']. cbn [fst snd first second third] in *.
    split; [|split; [|split; [exact S3'|split]]].
    + eapply fetch_slot_other; [|exact S1]. apply Hf', user_url_not_groups.
    + eapply fetch_slot_other; [|exact S2]. apply Hf', friends_url_not_groups.
    + congruence.
    + intros key Hkey. rewrite Hf'; [apply Hf, Hkey|].
      intros ->. apply Hkey. right; right; left.
Qed.

Lemma slots_event_loop (w0 : World) (sched : list Task) (st st' : FanOut Body Z Z)
    (w w' : World) :
  slots userId r1 r2 r3 w0 st w → event_loop env sched st w = Some (st', w') →
  slots userId r1 r2 r3 w0 st' w'.
Proof.
  revert st w. induction sched as [|t sched IH]; intros st w Hs; cbn [event_loop].
  - destruct (promise_settled st); [|discriminate]. intros [= <- <-]. exact Hs.
  - destruct (promise_settled st); [intros [= <- <-]; exact Hs|].
    pose proof (slots_resume_task w0 t st w Hs) as Hs1.
    destruct (resume_task env t st w) as [st1 w1]. apply IH, Hs1.
Qed.

End OrderIndependence.

(** X22: replies may arrive in any order.  Against a service that fulfils the
    three metric requests of a user whenever they are sent, starting from a
    cache without them, the fan-out of the handler ends in the same state
    under every schedule that lets it finish: the three values are the
    readings of the three replies, each associated with its own request, the
    cache has gained exactly the three responses, and the history exactly the
    three requests, with no wait and no retry. *)
Theorem fan_out_is_order_independent (env : Env) (userId : Z) (sched : list Task)
    (w : World) (r1 r2 r3 : Response) (friends groups : list Z) :
  cache w !! user_url userId = None →
  cache w !! friends_url userId = None →
  cache w !! groups_url userId = None →
  (∀ h, upstream env h (Get (user_url userId)) = Fulfilled r1) →
  (∀ h, upstream env h (Get (friends_url userId)) = Fulfilled r2) →
  (∀ h, upstream env h (Get (groups_url userId)) = Fulfilled r3) →
  data (body r2) = Some friends →
  data (body r3) = Some groups →
  (∀ t, (6 ≤ turns_of t sched)%nat) →
  fan_out env userId sched w =
  Some (mkFanOut (Settled (Normal (body r1)))
                 (Settled (Normal (Z.of_nat (length friends))))
                 (Settled (Normal (Z.of_nat (length groups)))),
        {| cache := <[groups_url userId := r3]>
                      (<[friends_url userId := r2]>
                         (<[user_url userId := r1]> (cache w)));
           history := history w ++ [Called (Get (user_url userId));
                                    Called (Get (friends_url userId));
                                    Called (Get (groups_url userId))] |}).
Proof.
  intros H1 H2 H3 U1 U2 U3 D2 D3 Hfair.
  destruct (fan_out_total env userId sched w Hfair) as (st & w' & Hfan & Hsettled).
  rewrite Hfan. f_equal.
  unfold fan_out, promise_all in Hfan. rewrite (start_all_cold env userId w H1 H2 H3) in Hfan.
  assert (Hslots : slots userId r1 r2 r3
                     {| cache := cache w;
                        history := history w ++ [Called (Get (user_url userId));
                                                 Called (Get (friends_url userId));
                                                 Called (Get (groups_url userId))] |}
                     st w').
  { eapply (slots_event_loop env userId r1 r2 r3 U1 U2 U3); [|exact Hfan].
    unfold slots, fetch_slot. cbn [first second third cache history]. auto 10. }
  destruct Hslots as (S1 & S2 & S3 & Hh & Hf). cbn [cache history] in Hh, Hf.
  assert (O2 : read_count r2 = Normal (Z.of_nat (length friends)))
    by (unfold read_count; rewrite D2; reflexivity).
  assert (O3 : read_count r3 = Normal (Z.of_nat (length groups)))
    by (unfold read_count; rewrite D3; reflexivity).
  unfold fetch_slot in S1, S2, S3. rewrite O2 in S2. rewrite O3 in S3.
  unfold read_details in S1.
  destruct st as [s1 s2 s3]. cbn [first second third] in *.
  destruct S1 as [[-> C1]|[-> C1]], S2 as [[-> C2]|[-> C2]], S3 as [[-> C3]|[-> C3]];
    try (destruct Hsettled as [c Hc]; discriminate Hc).
  f_equal. destruct w' as [c h]. cbn [cache history] in *. subst h. f_equal.
  apply map_eq. intros key.
  destruct (decide (key = groups_url userId)) as [->|N3];
    [rewrite lookup_insert_eq; exact C3|].
  rewrite lookup_insert_ne by congruence.
  destruct (decide (key = friends_url userId)) as [->|N2];
    [rewrite lookup_insert_eq; exact C2|].
  rewrite lookup_insert_ne by congruence.
  destruct (decide (key = user_url userId)) as [->|N1];
    [rewrite lookup_insert_eq; exact C1|].
  rewrite lookup_insert_ne by congruence.
  apply Hf. unfold metric_urls. rewrite !not_elem_of_cons. repeat split; auto.
  intros Hin. inversion Hin.
Qed.

Lemma fan_out_is_order_independent_witness :
  fan_out steady_service 42
          (Task3 :: Task3 :: Task2 :: Task1 :: round_robin 6) fresh =
  Some (mkFanOut (Settled (Normal (body (ok_user "Bob" 0))))
                 (Settled (Normal (Z.of_nat (length [1; 2]))))
                 (Settled (Normal (Z.of_nat (length [3])))),
        {| cache := <[groups_url 42 := ok_list [3]]>
                      (<[friends_url 42 := ok_list [1; 2]]>
                         (<[user_url 42 := ok_user "Bob" 0]> (cache fresh)));
           history := history fresh ++ [Called (Get (user_url 42));
                                        Called (Get (friends_url 42));
                                        Called (Get (groups_url 42))] |}).
Proof.
  apply (fan_out_is_order_independent steady_service 42
           (Task3 :: Task3 :: Task2 :: Task1 :: round_robin 6) fresh
           (ok_user "Bob" 0) (ok_list [1; 2]) (ok_list [3]) [1; 2] [3]).
  - reflexivity.
  - reflexivity.
  - reflexivity.
  - intros h. reflexivity.
  - intros h. reflexivity.
  - intros h. reflexivity.
  - reflexivity.
  - reflexivity.
  - intros []; vm_compute; lia.
Defined.
